(** * errgroup: a bounded-concurrency task group with retry

    A shallow embedding of [retry_opts.go] and [errgroup.go].

    - [time.Duration], [int64] and [int] values are integers of [Z]; the
      only arithmetic the code performs on them is a decrement guarded by
      [> 0] and one subtraction of two channel sizes, neither of which can
      leave the 64-bit range, so no wrap-around is written out.
    - Pointers to mutable structs are modelled by explicit state passing:
      a method that mutates its receiver returns the new receiver.
    - The goroutines spawned by [Go] are modelled by a labelled transition
      system over the shared group state; every interleaving of the
      program is a list of labels. *)

From Stdlib Require Import ZArith List Bool Lia.
From stdpp Require Import base list.

Local Open Scope Z_scope.

(** ** The part of github.com/cenkalti/backoff the package uses *)

Module backoff.

(** [time.Duration]: a signed count of nanoseconds. *)
Definition Duration := Z.

(** [backoff.Stop]: the duration that tells [Retry] to give up. *)
Definition Stop : Duration := -1.

(** The [backoff.BackOff] interface: two methods on a mutable receiver. *)
Class BackOff (B : Type) := {
  NextBackOff : B -> Duration * B;
  Reset : B -> B
}.

(** [*backoff.ExponentialBackOff]: the library's exponential curve.  Its
    code is not part of the package, so the curve is a parameter: a state
    type, the constructor and the two interface methods. *)
Class ExponentialBackOff (EB : Type) := {
  NewExponentialBackOff : EB;
  eb_NextBackOff : EB -> Duration * EB;
  eb_Reset : EB -> EB
}.

(** The first [n] values an exponential curve produces from state [e]. *)
Fixpoint eb_values {EB} `{ExponentialBackOff EB} (n : nat) (e : EB)
  : list Duration :=
  match n with
  | O => []
  | S n' => let '(d, e') := eb_NextBackOff e in d :: eb_values n' e'
  end.

End backoff.

Export backoff.

(** ** Errors and tasks *)

(** Go [error] values: the two errors a context reports, and the failures
    of caller-supplied tasks, told apart by a number. *)
Inductive error : Type :=
| Canceled
| DeadlineExceeded
| TaskError (n : nat).

(** A task is a closure [func() error] owned by the caller.  What the group
    can observe of it is the result of each successive call: [f k] is what
    the call number [k] (counting from 0) returns, [None] standing for the
    nil error. *)
Definition Task := nat -> option error.

(** ** retry_opts.go *)

Record concurrenyControl := {
  maxRetries : Z;
  remainRetries : Z
}.

Record zeroBackoff := { z_cc : concurrenyControl }.

Record constantBackoff := {
  interval : Duration;
  c_cc : concurrenyControl
}.

Record exponentialBackoff (EB : Type) := {
  eb : EB;
  e_cc : concurrenyControl
}.
Arguments eb {EB} _.
Arguments e_cc {EB} _.
Arguments Build_exponentialBackoff {EB} _ _.

(** [cc.remainRetries--] *)
Definition consume (cc : concurrenyControl) : concurrenyControl :=
  {| maxRetries := maxRetries cc; remainRetries := remainRetries cc - 1 |}.

(** [cc.remainRetries = cc.maxRetries] *)
Definition refill (cc : concurrenyControl) : concurrenyControl :=
  {| maxRetries := maxRetries cc; remainRetries := maxRetries cc |}.

Definition zeroBackoff_NextBackOff (z : zeroBackoff) : Duration * zeroBackoff :=
  if 0 <? remainRetries (z_cc z)
  then (0, {| z_cc := consume (z_cc z) |})
  else (-1, z).

Definition zeroBackoff_Reset (z : zeroBackoff) : zeroBackoff :=
  {| z_cc := refill (z_cc z) |}.

Definition constantBackoff_NextBackOff (c : constantBackoff)
  : Duration * constantBackoff :=
  if 0 <? remainRetries (c_cc c)
  then (interval c, {| interval := interval c; c_cc := consume (c_cc c) |})
  else (-1, c).

Definition constantBackoff_Reset (c : constantBackoff) : constantBackoff :=
  {| interval := interval c; c_cc := refill (c_cc c) |}.

Definition exponentialBackoff_NextBackOff {EB} `{ExponentialBackOff EB}
  (e : exponentialBackoff EB) : Duration * exponentialBackoff EB :=
  if 0 <? remainRetries (e_cc e)
  then let '(d, eb') := eb_NextBackOff (eb e) in
       (d, {| eb := eb'; e_cc := consume (e_cc e) |})
  else (-1, e).

Definition exponentialBackoff_Reset {EB} `{ExponentialBackOff EB}
  (e : exponentialBackoff EB) : exponentialBackoff EB :=
  {| eb := eb_Reset (eb e); e_cc := refill (e_cc e) |}.

Definition NewZeroBackoff (maxRetries : Z) : zeroBackoff :=
  {| z_cc := {| maxRetries := maxRetries; remainRetries := maxRetries |} |}.

Definition NewConstantBackoff (maxRetries : Z) (interval : Duration)
  : constantBackoff :=
  {| interval := interval;
     c_cc := {| maxRetries := maxRetries; remainRetries := maxRetries |} |}.

Definition NewExponentialBackoff {EB} `{ExponentialBackOff EB} (maxRetries : Z)
  : exponentialBackoff EB :=
  {| eb := NewExponentialBackOff;
     e_cc := {| maxRetries := maxRetries; remainRetries := maxRetries |} |}.

(** The three [var _ backoff.BackOff = ...] assertions of the file. *)
Global Instance zeroBackoff_BackOff : BackOff zeroBackoff :=
  {| NextBackOff := zeroBackoff_NextBackOff; Reset := zeroBackoff_Reset |}.

Global Instance constantBackoff_BackOff : BackOff constantBackoff :=
  {| NextBackOff := constantBackoff_NextBackOff;
     Reset := constantBackoff_Reset |}.

Global Instance exponentialBackoff_BackOff {EB} `{ExponentialBackOff EB}
  : BackOff (exponentialBackoff EB) :=
  {| NextBackOff := exponentialBackoff_NextBackOff;
     Reset := exponentialBackoff_Reset |}.

(** The interface value [backoffOpt backoff.BackOff] of [Go]: one of the
    three implementations, dispatched dynamically. *)
Inductive backoffOpt (EB : Type) : Type :=
| OfZero (z : zeroBackoff)
| OfConstant (c : constantBackoff)
| OfExponential (e : exponentialBackoff EB).
Arguments OfZero {EB} _.
Arguments OfConstant {EB} _.
Arguments OfExponential {EB} _.

Global Instance backoffOpt_BackOff {EB} `{ExponentialBackOff EB}
  : BackOff (backoffOpt EB) :=
  {| NextBackOff := fun b =>
       match b with
       | OfZero z => let '(d, z') := NextBackOff z in (d, OfZero z')
       | OfConstant c => let '(d, c') := NextBackOff c in (d, OfConstant c')
       | OfExponential e => let '(d, e') := NextBackOff e in (d, OfExponential e')
       end;
     Reset := fun b =>
       match b with
       | OfZero z => OfZero (Reset z)
       | OfConstant c => OfConstant (Reset c)
       | OfExponential e => OfExponential (Reset e)
       end |}.

(** The attempt counter of an interface value. *)
Definition counter {EB} (b : backoffOpt EB) : concurrenyControl :=
  match b with
  | OfZero z => z_cc z
  | OfConstant c => c_cc c
  | OfExponential e => e_cc e
  end.

(** The results of [n] successive [NextBackOff] calls on [b]. *)
Fixpoint nexts {B} `{BackOff B} (n : nat) (b : B) : list Duration :=
  match n with
  | O => []
  | S n' => let '(d, b') := NextBackOff b in d :: nexts n' b'
  end.

(** The receiver after [n] successive [NextBackOff] calls on [b]. *)
Fixpoint after_nexts {B} `{BackOff B} (n : nat) (b : B) : B :=
  match n with
  | O => b
  | S n' => after_nexts n' (snd (NextBackOff b))
  end.

(** ** The retry wrapper *)

(** What one run of the retry wrapper did: the error it returned, how many
    times it called the task, the delays it slept, and the policy state it
    left behind. *)
Record Attempts (B : Type) := {
  result : option error;
  calls : nat;
  slept : list Duration;
  policy : B
}.
Arguments result {B} _.
Arguments calls {B} _.
Arguments slept {B} _.
Arguments policy {B} _.
Arguments Build_Attempts {B} _ _ _ _.

(** Modelled from the spec: the loop of [backoff.Retry], a function of the
    library github.com/cenkalti/backoff whose code is not in the package.
    Section 4.2: repeatedly invoke the task; on success stop and propagate
    success; after a failing attempt query the policy: a stop signal
    propagates the last failure, a duration is slept and the task retried.
    [n] counts the calls made so far, [fuel] bounds the iterations. *)
Fixpoint retry_loop {B} `{BackOff B} (fuel : nat) (operation : Task) (b : B)
  (n : nat) (zs : list Duration) : option (Attempts B) :=
  match fuel with
  | O => None
  | S fuel' =>
      match operation n with
      | None =>
          Some {| result := None; calls := S n; slept := zs; policy := b |}
      | Some err =>
          let '(next, b') := NextBackOff b in
          if next =? Stop
          then Some {| result := Some err; calls := S n; slept := zs;
                       policy := b' |}
          else retry_loop fuel' operation b' (S n) (zs ++ [next])
      end
  end.

(** Modelled from the spec: [backoff.Retry(operation, b)].  Section 4.2: the
    policy state is reset once, when the task is wrapped, then the loop
    runs. *)
Definition Retry {B} `{BackOff B} (fuel : nat) (operation : Task) (b : B)
  : option (Attempts B) :=
  retry_loop fuel operation (Reset b) 0%nat [].

(** ** errgroup.go: retry options *)

(** [type RetryMode uint8] with its three named constants. *)
Definition RetryMode := N.
Definition Zero : RetryMode := 0%N.
Definition Constant : RetryMode := 1%N.
Definition Exponential : RetryMode := 2%N.

Record RetryOption := {
  Mode : RetryMode;
  Interval : Duration;
  MaxRetries : Z;
  wrapped : bool
}.

(** The [switch g.retryMode.Mode] of [Go]: a mode that is none of the three
    constants leaves [backoffOpt] nil. *)
Definition select_backoff {EB} `{ExponentialBackOff EB} (o : RetryOption)
  : option (backoffOpt EB) :=
  if (Mode o =? Zero)%N then
    Some (OfZero (NewZeroBackoff (MaxRetries o)))
  else if (Mode o =? Constant)%N then
    Some (OfConstant (NewConstantBackoff (MaxRetries o) (Interval o)))
  else if (Mode o =? Exponential)%N then
    Some (OfExponential (NewExponentialBackoff (MaxRetries o)))
  else None.

(** What a call of the closure [fun] does. *)
Inductive outcome : Type :=
| Returned (r : option error) (n : nat)   (* returned [r] after [n] calls of the task *)
| NilCall                                  (* called a nil func or a nil interface *)
| Running.                                 (* has not returned *)

(** The closure [fun] that [Go] builds (lines 98-117) and the spawned
    goroutine calls (line 140).  Without retry options [fun] stays nil. *)
Definition call_fun {EB} `{ExponentialBackOff EB} (retryMode : option RetryOption)
  (f : Task) : outcome :=
  match retryMode with
  | None => NilCall
  | Some o =>
      match select_backoff (EB:=EB) o with
      | None => NilCall
      | Some b =>
          match Retry (S (Z.to_nat (MaxRetries o))) f b with
          | Some a => Returned (result a) (calls a)
          | None => Running
          end
      end
  end.

(** A sample exponential curve for examples: 500ms doubled up to 60s. *)
Definition sample_curve : ExponentialBackOff Z :=
  {| NewExponentialBackOff := 500000000;
     eb_NextBackOff := fun e => (e, Z.min (2 * e) 60000000000);
     eb_Reset := fun _ => 500000000 |}.

(** A sample exponential curve with jitter, after section 4.3: the
    interval starts at 500ms and grows by half with each value, up to 60s;
    each value is drawn from the band of half the interval around it by a
    linear congruential generator.  [Reset] restarts the interval and
    leaves the generator where it is, as a reset that does not reseed the
    source of randomness does. *)
Definition jittered_curve : ExponentialBackOff (Z * Z) :=
  {| NewExponentialBackOff := (500000000, 1);
     eb_NextBackOff := fun '(interval, seed) =>
       (interval - interval / 2 + seed mod (interval + 1),
        (Z.min (interval * 3 / 2) 60000000000,
         (seed * 1103515245 + 12345) mod 2147483648));
     eb_Reset := fun '(_, seed) => (500000000, seed) |}.

(** ** errgroup.go: the group *)

(** [chan error] made with a capacity: the buffered values, oldest first,
    and [cap]. *)
Record errCh := {
  errs : list error;
  errs_cap : Z
}.

(** [len(ch)] *)
Definition len (c : errCh) : Z := Z.of_nat (length (errs c)).

(** [ch <- e]: a send on a full buffer blocks ([None]). *)
Definition send (e : error) (c : errCh) : option errCh :=
  if len c <? errs_cap c
  then Some {| errs := errs c ++ [e]; errs_cap := errs_cap c |}
  else None.

(** [semaphore.Weighted]: [size] permits, [cur] of them held. *)
Record Weighted := {
  size : Z;
  cur : Z
}.

Record group := {
  ctx : option error;            (* [ctx.Err()]: [None] until the context is done *)
  wg : Z;                        (* the counter of the [sync.WaitGroup] *)
  errOnce : bool;                (* whether the [sync.Once] has fired *)
  sema : option Weighted;
  waitAll : bool;
  err : option errCh;
  retryMode : option RetryOption
}.

(** [context.WithCancel(parent)]: done from the start when the parent is. *)
Definition WithCancel (parent : option error) : option error := parent.

(** [g.cancel()]: the first cancellation sets the error, later ones do
    nothing. *)
Definition cancel (g : group) : group :=
  {| ctx := match ctx g with None => Some Canceled | Some e => Some e end;
     wg := wg g; errOnce := errOnce g; sema := sema g; waitAll := waitAll g;
     err := err g; retryMode := retryMode g |}.

Definition NewGroupWithContext (parent : option error) (maxConcurrency : Z)
  (waitAll : bool) (retryMode : option RetryOption) (maxErrs : Z) : group :=
  {| ctx := WithCancel parent;
     wg := 0;
     errOnce := false;
     sema := if 0 <? maxConcurrency
             then Some {| size := maxConcurrency; cur := 0 |} else None;
     waitAll := waitAll;
     err := if 0 <? maxErrs
            then Some {| errs := []; errs_cap := maxErrs |} else None;
     retryMode := retryMode |}.

(** Lines 122-128 and 141-147: under the mutex, send [e] when
    [len(errs) - cap(errs) > 0].  [None]: the send blocks. *)
Definition collect (e : error) (ch : option errCh) : option (option errCh) :=
  match ch with
  | None => Some None
  | Some c =>
      if 0 <? len c - errs_cap c
      then match send e c with Some c' => Some (Some c') | None => None end
      else Some (Some c)
  end.

(** Where a goroutine spawned by [Go] stands. *)
Inductive pc : Type :=
| AtAcquire (f : Task)                 (* line 119, not admitted yet *)
| AtRun (f : Task)                     (* line 140, the defer is registered *)
| AtCollect (r : option error) (n : nat)  (* [fun] returned [r] after [n] calls of the task *)
| AtCancel                             (* line 149 *)
| AtDefer                              (* line 154, the deferred closure is due *)
| Finished                             (* exited after [wg.Done()] *)
| ReturnedEarly                        (* exited at line 129 *)
| Panicked.                            (* panicked at line 140 *)

(** Who called [g.cancel()]: the [errOnce] of goroutine [i], or [Wait]. *)
Inductive caller : Type :=
| FromGo (i : nat)
| FromWait.

(** The program: the group, its goroutines, whether a panic has brought the
    process down, and the history of [g.cancel()] calls. *)
Record state := {
  grp : group;
  units : list pc;
  panicked : bool;
  cancels : list caller
}.

Definition set_ctx (e : option error) (g : group) : group :=
  {| ctx := e; wg := wg g; errOnce := errOnce g; sema := sema g;
     waitAll := waitAll g; err := err g; retryMode := retryMode g |}.

Definition set_wg (n : Z) (g : group) : group :=
  {| ctx := ctx g; wg := n; errOnce := errOnce g; sema := sema g;
     waitAll := waitAll g; err := err g; retryMode := retryMode g |}.

Definition set_errOnce (b : bool) (g : group) : group :=
  {| ctx := ctx g; wg := wg g; errOnce := b; sema := sema g;
     waitAll := waitAll g; err := err g; retryMode := retryMode g |}.

Definition set_sema (w : option Weighted) (g : group) : group :=
  {| ctx := ctx g; wg := wg g; errOnce := errOnce g; sema := w;
     waitAll := waitAll g; err := err g; retryMode := retryMode g |}.

Definition set_err (c : option errCh) (g : group) : group :=
  {| ctx := ctx g; wg := wg g; errOnce := errOnce g; sema := sema g;
     waitAll := waitAll g; err := c; retryMode := retryMode g |}.

Definition set_retryMode (o : option RetryOption) (g : group) : group :=
  {| ctx := ctx g; wg := wg g; errOnce := errOnce g; sema := sema g;
     waitAll := waitAll g; err := err g; retryMode := o |}.

(** The deferred [g.retryMode.wrapped = true] of the closure [fun]. *)
Definition mark_wrapped (o : option RetryOption) : option RetryOption :=
  match o with
  | None => None
  | Some o => Some {| Mode := Mode o; Interval := Interval o;
                      MaxRetries := MaxRetries o; wrapped := true |}
  end.

(** [g.sema.Release(1)] when there is a semaphore. *)
Definition release (w : option Weighted) : option Weighted :=
  match w with
  | None => None
  | Some w => Some {| size := size w; cur := cur w - 1 |}
  end.

(** The deferred closure of lines 133-138: release the permit, then
    [wg.Done()]. *)
Definition deferred (g : group) : group :=
  set_wg (wg g - 1) (set_sema (release (sema g)) g).

(** The steps of the program.  [LGo f] is the caller's [g.Go(f)];
    [LParentCancel e] is the parent context ending with its error [e],
    [Canceled] or [DeadlineExceeded];
    [LAcquire i] and [LAcquireAbort i] are the two ways [Acquire] returns
    in goroutine [i]; [LStep i] is any other step of goroutine [i];
    [LWait] is the caller's [g.Wait()] returning. *)
Inductive label : Type :=
| LGo (f : Task)
| LParentCancel (e : error)
| LAcquire (i : nat)
| LAcquireAbort (i : nat)
| LStep (i : nat)
| LWait.

Definition with_grp (g : group) (s : state) : state :=
  {| grp := g; units := units s; panicked := panicked s; cancels := cancels s |}.

Definition at_pc (i : nat) (p : pc) (g : group) (s : state) : state :=
  {| grp := g; units := <[i := p]> (units s); panicked := panicked s;
     cancels := cancels s |}.

(** [g.Wait()]: returns once the counter is zero, after cancelling the
    context; [None] while it blocks.  [Go] and [Wait] are calls of the one
    caller, and with the counter at zero no goroutine has a step left, so
    nothing that matters runs between [g.wg.Wait()] and [g.cancel()]: the
    call is one step. *)
Definition Wait (s : state) : option (state * option errCh) :=
  if panicked s then None
  else if wg (grp s) =? 0 then
    Some ({| grp := cancel (grp s); units := units s; panicked := false;
             cancels := cancels s ++ [FromWait] |},
          err (grp s))
  else None.

(** [g.Go(f)] as the caller sees it: the counter goes up and a goroutine
    is spawned; the call does not block. *)
Definition Go (f : Task) (s : state) : state :=
  {| grp := set_wg (wg (grp s) + 1) (grp s);
     units := units s ++ [AtAcquire f];
     panicked := panicked s; cancels := cancels s |}.

(** One step of goroutine [i] other than the return of [Acquire]. *)
Definition step_unit {EB} `{ExponentialBackOff EB} (i : nat) (s : state)
  : option state :=
  let g := grp s in
  match units s !! i with
  | Some (AtAcquire f) =>
      (* line 119: without a semaphore the goroutine goes straight on *)
      match sema g with
      | None => Some (at_pc i (AtRun f) g s)
      | Some _ => None
      end
  | Some (AtRun f) =>
      (* line 140: [fun()] *)
      match call_fun (EB:=EB) (retryMode g) f with
      | Returned r n =>
          Some (at_pc i (AtCollect r n)
                  (set_retryMode (mark_wrapped (retryMode g)) g) s)
      | NilCall =>
          (* the panic runs the deferred closures, then the process dies *)
          Some {| grp := deferred (set_retryMode (mark_wrapped (retryMode g)) g);
                  units := <[i := Panicked]> (units s);
                  panicked := true; cancels := cancels s |}
      | Running => None
      end
  | Some (AtCollect r n) =>
      (* lines 140-148 *)
      match r with
      | None => Some (at_pc i AtCancel g s)
      | Some e =>
          match collect e (err g) with
          | Some ch => Some (at_pc i AtCancel (set_err ch g) s)
          | None => None
          end
      end
  | Some AtCancel =>
      (* lines 149-153 *)
      if waitAll g then Some (at_pc i AtDefer g s)
      else if errOnce g then Some (at_pc i AtDefer g s)
      else Some {| grp := cancel (set_errOnce true g);
                   units := <[i := AtDefer]> (units s);
                   panicked := panicked s;
                   cancels := cancels s ++ [FromGo i] |}
  | Some AtDefer => Some (at_pc i Finished (deferred g) s)
  | Some Finished | Some ReturnedEarly | Some Panicked | None => None
  end.

(** [g.sema.Acquire(g.ctx, 1)] returning nil in goroutine [i]: a permit was
    free.  The step does not look at the context: it covers the versions
    of the semaphore that hand out a free permit even when the context is
    done as well as those that do not, so that what holds of every
    schedule holds of both; [live_acquires] singles out the schedules
    that are runs under either. *)
Definition step_acquire (i : nat) (s : state) : option state :=
  let g := grp s in
  match units s !! i, sema g with
  | Some (AtAcquire f), Some w =>
      if cur w <? size w
      then Some (at_pc i (AtRun f)
                   (set_sema (Some {| size := size w; cur := cur w + 1 |}) g) s)
      else None
  | _, _ => None
  end.

(** [g.sema.Acquire(g.ctx, 1)] returning [ctx.Err()] in goroutine [i]: the
    context was done.  Lines 121-130: the error is offered to the channel
    and the goroutine returns. *)
Definition step_acquire_abort (i : nat) (s : state) : option state :=
  let g := grp s in
  match units s !! i, sema g, ctx g with
  | Some (AtAcquire f), Some w, Some e =>
      match collect e (err g) with
      | Some ch => Some (at_pc i ReturnedEarly (set_err ch g) s)
      | None => None
      end
  | _, _, _ => None
  end.

(** The transition function: [None] when the step is not enabled.  After a
    panic nothing runs any more: the process is taken to die with the
    panic, and the short time the runtime leaves to the other goroutines
    before it exits is not modelled. *)
Definition exec {EB} `{ExponentialBackOff EB} (s : state) (l : label)
  : option state :=
  if panicked s then None
  else match l with
       | LGo f => Some (Go f s)
       | LParentCancel e =>
           match e with
           | TaskError _ => None
           | _ => Some (with_grp (set_ctx (match ctx (grp s) with
                                           | None => Some e
                                           | Some e' => Some e'
                                           end) (grp s)) s)
           end
       | LAcquire i => step_acquire i s
       | LAcquireAbort i => step_acquire_abort i s
       | LStep i => step_unit (EB:=EB) i s
       | LWait => fst <$> Wait s
       end.

(** A schedule is a list of labels, run from left to right. *)
Fixpoint run {EB} `{ExponentialBackOff EB} (s : state) (ls : list label)
  : option state :=
  match ls with
  | [] => Some s
  | l :: ls' =>
      match exec (EB:=EB) s l with
      | Some s' => run s' ls'
      | None => None
      end
  end.

(** The program right after the constructor has returned. *)
Definition start (g : group) : state :=
  {| grp := g; units := []; panicked := false; cancels := [] |}.

(** A goroutine that has decremented the counter. *)
Definition released (p : pc) : bool :=
  match p with
  | Finished | Panicked => true
  | _ => false
  end.

(** How many goroutines have not decremented the counter. *)
Fixpoint pending (us : list pc) : Z :=
  match us with
  | [] => 0
  | p :: us' => (if released p then 0 else 1) + pending us'
  end.

(** How many times the [errOnce] of some goroutine called [g.cancel()]. *)
Fixpoint from_go (cs : list caller) : nat :=
  match cs with
  | [] => 0%nat
  | FromGo _ :: cs' => S (from_go cs')
  | FromWait :: cs' => from_go cs'
  end.

(** ** Statements of the specification, in its own words *)

(** Section 4.3, the attempt-budget rule as it is worded: stop when the
    counter is zero, otherwise decrement the counter by one. *)
Definition budget_rule_as_worded {B} `{BackOff B} (remain : B -> Z) (b : B)
  : Prop :=
  if remain b =? 0
  then fst (NextBackOff b) = Stop
  else remain (snd (NextBackOff b)) = remain b - 1.

(** Property P5 as it is worded: with [maxRetries = r] an always failing
    task is called [r + 1] times and the failure of the last call is the
    result. *)
Definition retry_budget_as_worded {B} `{BackOff B} (r : Z) (f : Task) (b : B)
  : Prop :=
  exists a, Retry (S (Z.to_nat r)) f b = Some a /\
            calls a = S (Z.to_nat r) /\
            result a = f (Z.to_nat r).

(** A policy that yields no stop value while its budget lasts: nothing to
    ask of the no-delay strategy, an interval other than [Stop] for the
    fixed one, a curve whose next values are not [Stop] for the
    exponential one. *)
Definition steady {EB} `{ExponentialBackOff EB} (b : backoffOpt EB) : Prop :=
  match b with
  | OfZero _ => True
  | OfConstant c => interval c <> Stop
  | OfExponential e =>
      Forall (fun d => d <> Stop)
             (eb_values (Z.to_nat (remainRetries (e_cc e))) (eb e))
  end.

(** A freshly constructed instance with the configuration of [b]. *)
Definition fresh {EB} `{ExponentialBackOff EB} (b : backoffOpt EB)
  : backoffOpt EB :=
  match b with
  | OfZero z => OfZero (NewZeroBackoff (maxRetries (z_cc z)))
  | OfConstant c =>
      OfConstant (NewConstantBackoff (maxRetries (c_cc c)) (interval c))
  | OfExponential e =>
      OfExponential (NewExponentialBackoff (maxRetries (e_cc e)))
  end.

(** Section 4.3 as it is worded for [reset()]: the counter is back at the
    configured maximum and the next results are those of a freshly
    constructed instance with the same configuration. *)
Definition reset_as_worded {EB} `{ExponentialBackOff EB} (b : backoffOpt EB)
  (k n : nat) : Prop :=
  remainRetries (counter (Reset (after_nexts k b))) = maxRetries (counter b) /\
  nexts n (Reset (after_nexts k b)) = nexts n (fresh b).

(** The options [o] with another retry budget. *)
Definition with_MaxRetries (m : Z) (o : RetryOption) : RetryOption :=
  {| Mode := Mode o; Interval := Interval o; MaxRetries := m;
     wrapped := wrapped o |}.

(** What a caller can see of a run of the wrapper. *)
Definition observed {B} (a : Attempts B) : option error * nat * list Duration :=
  (result a, calls a, slept a).

(** ** What holds in every state of the program *)

(** For a group made with [maxErrs] and [waitAll]: the counter of the
    wait group is the number of goroutines that have not released it; the
    error channel exists exactly when [maxErrs > 0], has that capacity and
    is empty; a process that has not panicked has no panicked goroutine;
    the mode never changes; [errOnce] has fired exactly when a goroutine
    has cancelled, which happens only when [waitAll] is false. *)
Record group_inv (maxErrs : Z) (w : bool) (s : state) : Prop := {
  inv_wg : wg (grp s) = pending (units s);
  inv_err_none : err (grp s) = None <-> maxErrs <= 0;
  inv_err_some : forall c, err (grp s) = Some c ->
                           errs c = [] /\ errs_cap c = maxErrs;
  inv_alive : panicked s = false -> Forall (fun p => p <> Panicked) (units s);
  inv_waitAll : waitAll (grp s) = w;
  inv_once : from_go (cancels s) = if errOnce (grp s) then 1%nat else 0%nat;
  inv_quiet : w = true -> errOnce (grp s) = false
}.

(** ** Sample uses of the group *)

(** A task that fails with error number [k] at every call. *)
Definition always_fails (k : nat) : Task := fun _ => Some (TaskError k).

(** A task whose call number [k] fails with error number [k]. *)
Definition fails_differently : Task := fun k => Some (TaskError k).

(** A task that fails twice, then succeeds. *)
Definition third_time_lucky : Task :=
  fun k => if (k <? 2)%nat then Some (TaskError k) else None.

(** Retry options of the fixed-delay strategy. *)
Definition constant_retry (m : Z) (d : Duration) : RetryOption :=
  {| Mode := Constant; Interval := d; MaxRetries := m; wrapped := false |}.

(** Retry options of the exponential strategy. *)
Definition exponential_retry (m : Z) : RetryOption :=
  {| Mode := Exponential; Interval := 0; MaxRetries := m; wrapped := false |}.

(** A task that succeeds at its first call. *)
Definition succeeds : Task := fun _ => None.

(** Retry options with the no-delay strategy and no retry. *)
Definition no_retry : RetryOption :=
  {| Mode := Zero; Interval := 0; MaxRetries := 0; wrapped := false |}.

(** Goroutine [i] of a group without a semaphore, from its start to its
    exit: past line 119, [fun()], the error channel, the cancellation
    check, the deferred closure. *)
Definition to_completion (i : nat) : list label :=
  [LStep i; LStep i; LStep i; LStep i; LStep i].

(** Run the schedule [ls] on the group [g], then call [Wait]: what [Wait]
    returns, or [None] when the schedule cannot run or [Wait] blocks. *)
Definition run_then_Wait {EB} `{ExponentialBackOff EB} (g : group)
  (ls : list label) : option (option errCh) :=
  match run (EB:=EB) (start g) ls with
  | Some s => snd <$> Wait s
  | None => None
  end.

(** Section 8, the scenario of property P2: an error buffer of capacity 3,
    five tasks failing with distinct errors, run-to-completion mode,
    unbounded admission; every goroutine runs to its exit. *)
Definition five_failures_group : group :=
  NewGroupWithContext None 0 true (Some no_retry) 3.

Definition five_failures : list label :=
  [LGo (always_fails 1); LGo (always_fails 2); LGo (always_fails 3);
   LGo (always_fails 4); LGo (always_fails 5)]
  ++ to_completion 0 ++ to_completion 1 ++ to_completion 2
  ++ to_completion 3 ++ to_completion 4.

(** One permit, fail-fast mode, two tasks, the first of which fails.  The
    first goroutine takes the permit, runs its task and cancels the
    context at line 151; the second, still waiting in [Acquire], gets the
    context's error and returns at line 129; the first then runs its
    deferred closure. *)
Definition starved_group : group :=
  NewGroupWithContext None 1 false (Some no_retry) 3.

Definition starved : list label :=
  [LGo (always_fails 1); LGo succeeds;
   LAcquire 0; LStep 0; LStep 0; LStep 0;
   LAcquireAbort 1;
   LStep 0].

(** Fail-fast mode, no semaphore, one task that succeeds; the goroutine
    runs up to the end of the function body. *)
Definition one_success_group : group :=
  NewGroupWithContext None 0 false (Some no_retry) 1.

Definition one_success : list label :=
  [LGo succeeds; LStep 0; LStep 0; LStep 0; LStep 0].

(** No retry options: [Go] leaves [fun] nil. *)
Definition no_options_group : group :=
  NewGroupWithContext None 0 true None 3.

Definition no_options : list label :=
  [LGo succeeds; LStep 0; LStep 0].

(** ** Further notions about policies and schedules *)

(** The values a strategy would return with an unlimited budget: the next
    [n] delays. *)
Definition delays {EB} `{ExponentialBackOff EB} (n : nat) (b : backoffOpt EB)
  : list Duration :=
  match b with
  | OfZero _ => repeat 0 n
  | OfConstant c => repeat (interval c) n
  | OfExponential e => eb_values n (eb e)
  end.

(** The state of a curve after [n] of its values have been taken. *)
Fixpoint eb_after {EB} `{ExponentialBackOff EB} (n : nat) (e : EB) : EB :=
  match n with
  | O => e
  | S n' => eb_after n' (snd (eb_NextBackOff e))
  end.

(** A goroutine that holds a permit of the semaphore: [Acquire] has
    returned nil and the deferred [Release] has not run. *)
Definition holds_permit (p : pc) : bool :=
  match p with
  | AtRun _ | AtCollect _ _ | AtCancel | AtDefer => true
  | _ => false
  end.

(** How many goroutines hold a permit. *)
Fixpoint holders (us : list pc) : Z :=
  match us with
  | [] => 0
  | p :: us' => (if holds_permit p then 1 else 0) + holders us'
  end.

(** A goroutine that has gone past the cancellation check of lines
    149-153. *)
Definition past_cancel (p : pc) : bool :=
  match p with
  | AtDefer | Finished => true
  | _ => false
  end.

(** How many [Go] calls a schedule makes. *)
Fixpoint count_go (ls : list label) : nat :=
  match ls with
  | [] => 0%nat
  | LGo _ :: ls' => S (count_go ls')
  | _ :: ls' => count_go ls'
  end.

(** Goroutine [i] from its start to its exit: [Acquire] returning nil when
    there is a semaphore, then [fun()], the error channel, the
    cancellation check and the deferred closure. *)
Definition unit_schedule (limited : bool) (i : nat) : list label :=
  if limited
  then [LAcquire i; LStep i; LStep i; LStep i; LStep i]
  else to_completion i.

(** The goroutines [j], [j + 1], ..., [j + k - 1], each run from its start
    to its exit before the next one starts. *)
Definition one_by_one (limited : bool) (j k : nat) : list label :=
  flat_map (unit_schedule limited) (seq j k).

(** What the semaphore of a group made with [maxConcurrency] looks like
    in every state: it exists exactly when [maxConcurrency > 0], its size
    is [maxConcurrency], and the permits held are those of the goroutines
    between [Acquire] and [Release]; a goroutine that returned at line 129
    had a semaphore to wait for and a context that was done. *)
Record admission_inv (maxConcurrency : Z) (s : state) : Prop := {
  adm_sema : sema (grp s) =
             if 0 <? maxConcurrency
             then Some {| size := maxConcurrency; cur := holders (units s) |}
             else None;
  adm_bound : 0 < maxConcurrency -> holders (units s) <= maxConcurrency;
  adm_early : forall i, units s !! i = Some ReturnedEarly ->
                        0 < maxConcurrency /\ ctx (grp s) <> None
}.

(** What the cancellation state of a group looks like in every state: the
    [errOnce] has fired only with the context done, and in fail-fast mode
    it has fired as soon as a goroutine is past lines 149-153. *)
Record cancel_inv (s : state) : Prop := {
  cnl_once : errOnce (grp s) = true -> ctx (grp s) <> None;
  cnl_past : waitAll (grp s) = false ->
             forall i p, units s !! i = Some p -> past_cancel p = true ->
                         errOnce (grp s) = true
}.

(** The retry options of a group made with [rm]: never replaced, only
    marked as wrapped. *)
Definition options_of (rm : option RetryOption) (g : group) : Prop :=
  retryMode g = rm \/ retryMode g = mark_wrapped rm.

(** The quiet state in which [j] goroutines have finished and the tasks
    [fs] wait to be started, in a group whose retry options select the
    policy [b] and whose error channel is [ch]. *)
Record waiting {EB} `{ExponentialBackOff EB} (b : backoffOpt EB)
  (ch : option errCh) (limited : bool) (j : nat) (fs : list Task) (s : state)
  : Prop := {
  wt_alive : panicked s = false;
  wt_units : units s = repeat Finished j ++ map AtAcquire fs;
  wt_wg : wg (grp s) = Z.of_nat (length fs);
  wt_sema : match sema (grp s) with
            | Some w => limited = true /\ cur w = 0 /\ 0 < size w
            | None => limited = false
            end;
  wt_options : exists o, retryMode (grp s) = Some o /\
                         select_backoff o = Some b;
  wt_err : err (grp s) = ch;
  wt_room : forall c, ch = Some c -> len c <= errs_cap c;
  wt_live : limited = true ->
            waitAll (grp s) = true /\ ctx (grp s) = None
}.

(** Every [Acquire] that returns nil in the schedule [ls], run from [s],
    is called with a context that is not done: such a call succeeds
    whether or not the semaphore looks at the context before it hands out
    a free permit. *)
Fixpoint live_acquires {EB} `{ExponentialBackOff EB} (s : state)
  (ls : list label) : Prop :=
  match ls with
  | [] => True
  | l :: ls' =>
      match l with
      | LAcquire _ => ctx (grp s) = None
      | _ => True
      end /\
      match exec (EB:=EB) s l with
      | Some s' => live_acquires s' ls'
      | None => True
      end
  end.

(** A channel capacity that [make(chan error, n)] accepts on every
    platform: 65536 values. *)
Definition small_capacity : Z := 65536.

(** ** Proof steps *)

(** Split a step [exec s l = Some s'] into the cases of the transition
    function. *)
Ltac exec_cases Hx :=
  unfold exec, step_unit, step_acquire, step_acquire_abort, Wait in Hx;
  repeat (match type of Hx with
          | context [match ?x with _ => _ end] => destruct x eqn:?
          end; try discriminate Hx);
  cbn in Hx; inversion Hx; subst; clear Hx.

(** * Facts about the backoff strategies and the retry wrapper *)

Section Backoff_facts.

Context {EB : Type} `{ExponentialBackOff EB}.

Implicit Types (b : backoffOpt EB) (f : Task).

Lemma NextBackOff_exhausted b :
  remainRetries (counter b) <= 0 -> NextBackOff b = (Stop, b).
Proof.
  intros Hle.
  destruct b as [z|c|e]; cbn in *;
    [ unfold zeroBackoff_NextBackOff
    | unfold constantBackoff_NextBackOff
    | unfold exponentialBackoff_NextBackOff ];
    (destruct (0 <? _) eqn:Hlt; [apply Z.ltb_lt in Hlt; lia | reflexivity]).
Qed.

Lemma NextBackOff_available b :
  0 < remainRetries (counter b) ->
  NextBackOff b =
    match b with
    | OfZero z => (0, OfZero {| z_cc := consume (z_cc z) |})
    | OfConstant c =>
        (interval c,
         OfConstant {| interval := interval c; c_cc := consume (c_cc c) |})
    | OfExponential e =>
        (fst (eb_NextBackOff (eb e)),
         OfExponential {| eb := snd (eb_NextBackOff (eb e));
                          e_cc := consume (e_cc e) |})
    end.
Proof.
  intros Hlt. apply Z.ltb_lt in Hlt.
  destruct b as [z|c|e]; cbn in *.
  - unfold zeroBackoff_NextBackOff. now rewrite Hlt.
  - unfold constantBackoff_NextBackOff. now rewrite Hlt.
  - unfold exponentialBackoff_NextBackOff. rewrite Hlt.
    now destruct (eb_NextBackOff (eb e)).
Qed.

Lemma NextBackOff_counter b :
  0 < remainRetries (counter b) ->
  counter (snd (NextBackOff b)) = consume (counter b).
Proof.
  intros Hlt. rewrite (NextBackOff_available _ Hlt). now destruct b.
Qed.

Lemma NextBackOff_steady b :
  0 < remainRetries (counter b) -> steady b ->
  fst (NextBackOff b) <> Stop /\ steady (snd (NextBackOff b)).
Proof.
  intros Hlt Hs. rewrite (NextBackOff_available _ Hlt).
  destruct b as [z|c|e]; cbn in *.
  - split; [discriminate | exact I].
  - split; assumption.
  - replace (Z.to_nat (remainRetries (e_cc e)))
      with (S (Z.to_nat (remainRetries (e_cc e) - 1))) in Hs by lia.
    cbn in Hs. destruct (eb_NextBackOff (eb e)) as [d e'].
    inversion Hs; subst. split; assumption.
Qed.

Lemma Reset_counter b : counter (Reset b) = refill (counter b).
Proof. now destruct b. Qed.

Lemma retry_loop_S {B} `{BackOff B} fuel f (b : B) n zs :
  retry_loop (S fuel) f b n zs =
    match f n with
    | None => Some {| result := None; calls := S n; slept := zs; policy := b |}
    | Some err =>
        if fst (NextBackOff b) =? Stop
        then Some {| result := Some err; calls := S n; slept := zs;
                     policy := snd (NextBackOff b) |}
        else retry_loop fuel f (snd (NextBackOff b)) (S n)
               (zs ++ [fst (NextBackOff b)])
    end.
Proof. cbn. destruct (f n); [|reflexivity]. now destruct (NextBackOff b). Qed.

Lemma retry_loop_total f : forall fuel b n zs,
  (Z.to_nat (remainRetries (counter b)) < fuel)%nat ->
  exists a, retry_loop fuel f b n zs = Some a.
Proof.
  induction fuel as [|fuel IH]; intros b n zs Hfuel; [lia|].
  rewrite retry_loop_S. destruct (f n) as [e|]; [|eauto].
  destruct (Z_le_gt_dec (remainRetries (counter b)) 0) as [Hle|Hgt].
  - rewrite (NextBackOff_exhausted _ Hle). cbn. eauto.
  - assert (Hlt : 0 < remainRetries (counter b)) by lia.
    pose proof (NextBackOff_counter _ Hlt) as Hc.
    destruct (NextBackOff b) as [d b']. cbn [fst snd] in *.
    destruct (d =? Stop); [eauto|].
    apply IH. rewrite Hc. cbn. lia.
Qed.

Lemma retry_loop_exhausts f : forall fuel b n zs,
  (forall k, f k <> None) ->
  steady b ->
  0 <= remainRetries (counter b) ->
  (Z.to_nat (remainRetries (counter b)) < fuel)%nat ->
  exists a, retry_loop fuel f b n zs = Some a /\
            calls a = S (n + Z.to_nat (remainRetries (counter b))) /\
            result a = f (n + Z.to_nat (remainRetries (counter b)))%nat.
Proof.
  induction fuel as [|fuel IH]; intros b n zs Hf Hs Hpos Hfuel; [lia|].
  rewrite retry_loop_S. destruct (f n) as [e|] eqn:Hfn; [|now destruct (Hf n)].
  destruct (Z_le_gt_dec (remainRetries (counter b)) 0) as [Hle|Hgt].
  - rewrite (NextBackOff_exhausted _ Hle). cbn.
    replace (remainRetries (counter b)) with 0 by lia.
    rewrite Nat.add_0_r. eauto.
  - assert (Hlt : 0 < remainRetries (counter b)) by lia.
    pose proof (NextBackOff_counter _ Hlt) as Hc.
    destruct (NextBackOff_steady _ Hlt Hs) as [Hd Hs'].
    destruct (NextBackOff b) as [d b']. cbn [fst snd] in *.
    destruct (d =? Stop) eqn:Hstop; [apply Z.eqb_eq in Hstop; contradiction|].
    destruct (IH b' (S n) (zs ++ [d]) Hf Hs') as (a & Ha & Hcalls & Hres).
    + rewrite Hc. cbn. lia.
    + rewrite Hc. cbn. lia.
    + exists a. rewrite Hc in Hcalls, Hres. cbn in Hcalls, Hres.
      replace (n + Z.to_nat (remainRetries (counter b)))%nat
        with (S n + Z.to_nat (remainRetries (counter b) - 1))%nat by lia.
      auto.
Qed.

Lemma retry_loop_no_budget f fuel b n zs :
  remainRetries (counter b) <= 0 ->
  retry_loop (S fuel) f b n zs =
    Some {| result := f n; calls := S n; slept := zs; policy := b |}.
Proof.
  intros Hle. rewrite retry_loop_S. destruct (f n); [|reflexivity].
  now rewrite (NextBackOff_exhausted _ Hle).
Qed.

End Backoff_facts.

Section Backoff_claims.

Context {EB : Type} `{ExponentialBackOff EB}.

Implicit Types (b : backoffOpt EB) (f : Task) (o : RetryOption).

Lemma select_backoff_counter o b :
  select_backoff o = Some b ->
  counter b = {| maxRetries := MaxRetries o; remainRetries := MaxRetries o |}.
Proof.
  unfold select_backoff. intros Hsel.
  repeat (destruct (_ =? _)%N in Hsel); inversion Hsel; reflexivity.
Qed.

Lemma select_backoff_budget m o b :
  select_backoff o = Some b ->
  exists b0, select_backoff (with_MaxRetries m o) = Some b0.
Proof.
  unfold select_backoff. cbn. intros Hsel.
  repeat (destruct (_ =? _)%N in * ); eauto; discriminate.
Qed.

Lemma Retry_no_budget f fuel b :
  maxRetries (counter b) <= 0 ->
  Retry (S fuel) f b =
    Some {| result := f 0%nat; calls := 1; slept := []; policy := Reset b |}.
Proof.
  intros Hle. unfold Retry. apply retry_loop_no_budget.
  now rewrite Reset_counter.
Qed.

Lemma call_fun_no_budget o b f :
  MaxRetries o <= 0 -> select_backoff o = Some b ->
  call_fun (Some o) f = Returned (f 0%nat) 1.
Proof.
  intros Hle Hsel. unfold call_fun. rewrite Hsel.
  rewrite Retry_no_budget; [reflexivity|].
  now rewrite (select_backoff_counter _ _ Hsel).
Qed.

Lemma nexts_exhausted b : forall n,
  remainRetries (counter b) <= 0 ->
  nexts n b = repeat Stop n /\ after_nexts n b = b.
Proof.
  induction n as [|n IH]; intros Hle; [split; reflexivity|].
  destruct (IH Hle) as [IH1 IH2].
  cbn [nexts after_nexts repeat].
  rewrite (NextBackOff_exhausted _ Hle). cbn [snd].
  now rewrite IH1, IH2.
Qed.

(** Every [NextBackOff] keeps the strategy, its budget and its interval. *)
Lemma NextBackOff_fresh b : fresh (snd (NextBackOff b)) = fresh b.
Proof.
  destruct (Z_le_gt_dec (remainRetries (counter b)) 0) as [Hle|Hgt].
  - now rewrite (NextBackOff_exhausted _ Hle).
  - rewrite NextBackOff_available by lia. now destruct b.
Qed.

Lemma after_nexts_fresh b : forall k, fresh (after_nexts k b) = fresh b.
Proof.
  intros k. revert b.
  induction k as [|k IH]; intros b; [reflexivity|].
  cbn [after_nexts]. now rewrite IH, NextBackOff_fresh.
Qed.

Lemma fresh_counter b : counter (fresh b) = refill (counter b).
Proof. now destruct b. Qed.

(** The results of an exponential policy are the values of its curve for
    as many calls as the counter allows, and the stop signal after that. *)
Lemma nexts_exponential : forall n (e : exponentialBackoff EB),
  nexts n (OfExponential e) =
    firstn (Z.to_nat (remainRetries (e_cc e))) (eb_values n (eb e))
    ++ repeat Stop (n - Z.to_nat (remainRetries (e_cc e))).
Proof.
  induction n as [|n IH]; intros e.
  - cbn [nexts eb_values]. now rewrite firstn_nil.
  - cbn [nexts].
    destruct (Z_le_gt_dec (remainRetries (e_cc e)) 0) as [Hle|Hgt].
    + rewrite (NextBackOff_exhausted (OfExponential e)) by exact Hle.
      rewrite (IH e).
      replace (Z.to_nat (remainRetries (e_cc e))) with 0%nat by lia.
      cbn [firstn app]. rewrite !Nat.sub_0_r. reflexivity.
    + rewrite (NextBackOff_available (OfExponential e)) by (cbn; lia).
      rewrite IH. cbn [eb e_cc consume remainRetries eb_values].
      replace (Z.to_nat (remainRetries (e_cc e)))
        with (S (Z.to_nat (remainRetries (e_cc e) - 1))) by lia.
      destruct (eb_NextBackOff (eb e)) as [d e']. reflexivity.
Qed.

(** C7 (amended): for each of the three strategies, [NextBackOff] returns
    the stop signal and leaves the receiver unchanged whenever the
    remaining-attempts counter is zero or negative; when the counter is
    positive it decrements the counter by one and returns 0 for the
    no-delay strategy, the configured interval (itself unchanged) for the
    fixed-delay strategy, and the next value of the curve for the
    exponential strategy.  With [MaxRetries = 0] the first [NextBackOff]
    of the constructed policy returns stop, and the closure [fun] calls
    the task once. *)
Theorem C7_attempt_budget_rule b :
  (remainRetries (counter b) <= 0 -> NextBackOff b = (Stop, b)) /\
  (0 < remainRetries (counter b) ->
   counter (snd (NextBackOff b)) = consume (counter b) /\
   NextBackOff b =
     match b with
     | OfZero z => (0, OfZero {| z_cc := consume (z_cc z) |})
     | OfConstant c =>
         (interval c,
          OfConstant {| interval := interval c; c_cc := consume (c_cc c) |})
     | OfExponential e =>
         (fst (eb_NextBackOff (eb e)),
          OfExponential {| eb := snd (eb_NextBackOff (eb e));
                           e_cc := consume (e_cc e) |})
     end) /\
  (forall o f, MaxRetries o = 0 -> select_backoff o = Some b ->
   fst (NextBackOff b) = Stop /\
   call_fun (Some o) f = Returned (f 0%nat) 1).
Proof.
  split; [apply NextBackOff_exhausted|].
  split.
  - intros Hlt. split; [now apply NextBackOff_counter|].
    now apply NextBackOff_available.
  - intros o f Hzero Hsel. split.
    + rewrite NextBackOff_exhausted; [reflexivity|].
      rewrite (select_backoff_counter _ _ Hsel). cbn. lia.
    + apply (call_fun_no_budget o b); [lia|assumption].
Qed.


(** C10: for each of the three strategies, a policy constructed with a
    negative [MaxRetries] starts with a negative remaining-attempts
    counter; every [NextBackOff] returns the stop signal and leaves the
    policy unchanged; the wrapper calls the task exactly once; and the
    values returned and the run of the wrapper are those of the policy
    constructed with [MaxRetries = 0]. *)
Theorem C10_negative_budget_is_zero_budget o b f (n fuel : nat) :
  MaxRetries o < 0 ->
  select_backoff o = Some b ->
  remainRetries (counter b) = MaxRetries o /\
  nexts n b = repeat Stop n /\
  after_nexts n b = b /\
  (exists a, Retry (S fuel) f b = Some a /\
             calls a = 1%nat /\ result a = f 0%nat) /\
  call_fun (Some o) f = Returned (f 0%nat) 1 /\
  exists b0, select_backoff (with_MaxRetries 0 o) = Some b0 /\
             nexts n b0 = nexts n b /\
             observed <$> Retry (S fuel) f b0 = observed <$> Retry (S fuel) f b /\
             call_fun (Some (with_MaxRetries 0 o)) f = call_fun (Some o) f.
Proof.
  intros Hneg Hsel.
  pose proof (select_backoff_counter _ _ Hsel) as Hc.
  assert (Hle : remainRetries (counter b) <= 0) by (rewrite Hc; cbn; lia).
  assert (Hmax : maxRetries (counter b) <= 0) by (rewrite Hc; cbn; lia).
  destruct (nexts_exhausted b n Hle) as [Hn Ha].
  split; [now rewrite Hc|].
  split; [exact Hn|]. split; [exact Ha|].
  split; [rewrite (Retry_no_budget f fuel b Hmax); eauto|].
  split; [apply (call_fun_no_budget o b); [lia|assumption]|].
  destruct (select_backoff_budget 0 _ _ Hsel) as [b0 Hsel0].
  pose proof (select_backoff_counter _ _ Hsel0) as Hc0. cbn in Hc0.
  exists b0. split; [exact Hsel0|].
  split.
  - rewrite Hn. apply nexts_exhausted. rewrite Hc0. cbn. lia.
  - split.
    + rewrite (Retry_no_budget f fuel b Hmax).
      rewrite (Retry_no_budget f fuel b0) by (rewrite Hc0; cbn; lia).
      reflexivity.
    + rewrite (call_fun_no_budget o b) by (lia || assumption).
      apply (call_fun_no_budget _ b0); [cbn; lia|assumption].
Qed.

Lemma Retry_exhausts_budget b f fuel :
  0 <= maxRetries (counter b) ->
  steady (Reset b) ->
  (forall k, f k <> None) ->
  (Z.to_nat (maxRetries (counter b)) < fuel)%nat ->
  exists a, Retry fuel f b = Some a /\
            calls a = S (Z.to_nat (maxRetries (counter b))) /\
            result a = f (Z.to_nat (maxRetries (counter b))).
Proof.
  intros Hpos Hs Hf Hfuel. unfold Retry.
  destruct (retry_loop_exhausts f fuel (Reset b) 0 [] Hf Hs)
    as (a & Ha & Hcalls & Hres).
  - rewrite Reset_counter. exact Hpos.
  - rewrite Reset_counter. exact Hfuel.
  - rewrite Reset_counter in Hcalls, Hres. cbn in Hcalls, Hres. eauto.
Qed.

(** C6 (amended): for a retry-wrapped task with [MaxRetries = r >= 0]
    whose body fails on every attempt, and whose policy yields no stop
    value while its budget lasts (always so for the no-delay strategy; an
    interval other than -1ns for the fixed-delay strategy; a curve whose
    first [r] values are not stop for the exponential strategy), the body
    is called exactly [r + 1] times and the wrapper returns the failure of
    the last call. *)
Theorem C6_retry_budget o b f :
  0 <= MaxRetries o ->
  select_backoff o = Some b ->
  steady (Reset b) ->
  (forall k, f k <> None) ->
  call_fun (Some o) f =
    Returned (f (Z.to_nat (MaxRetries o))) (S (Z.to_nat (MaxRetries o))) /\
  retry_budget_as_worded (MaxRetries o) f b.
Proof.
  intros Hpos Hsel Hs Hf.
  pose proof (select_backoff_counter _ _ Hsel) as Hc.
  destruct (Retry_exhausts_budget b f (S (Z.to_nat (MaxRetries o))))
    as (a & Ha & Hcalls & Hres); try assumption.
  - rewrite Hc. exact Hpos.
  - rewrite Hc. cbn. lia.
  - rewrite Hc in Hcalls, Hres. cbn in Hcalls, Hres. split.
    + unfold call_fun. rewrite Hsel, Ha, Hcalls, Hres. reflexivity.
    + exists a. auto.
Qed.

Lemma call_fun_returns (retryMode : option RetryOption) f :
  call_fun (EB:=EB) retryMode f <> Running.
Proof.
  unfold call_fun. destruct retryMode as [o|]; [|discriminate].
  destruct (select_backoff o) as [b|] eqn:Hsel; [|discriminate].
  destruct (retry_loop_total f (S (Z.to_nat (MaxRetries o))) (Reset b) 0 [])
    as [a Ha].
  - rewrite Reset_counter, (select_backoff_counter _ _ Hsel). cbn. lia.
  - unfold Retry. rewrite Ha. discriminate.
Qed.

End Backoff_claims.

(** * Facts about the group *)

Lemma pending_nonneg (us : list pc) : 0 <= pending us.
Proof. induction us as [|p us IH]; cbn; [lia|]. destruct (released p); lia. Qed.

Lemma pending_app (us vs : list pc) :
  pending (us ++ vs) = pending us + pending vs.
Proof. induction us as [|p us IH]; cbn; [reflexivity|]. rewrite IH. lia. Qed.

Lemma pending_insert (us : list pc) : forall i p q,
  us !! i = Some p ->
  pending (<[i := q]> us) =
    pending us - (if released p then 0 else 1) + (if released q then 0 else 1).
Proof.
  induction us as [|u us IH]; intros [|i] p q Hi; simpl in *; try discriminate.
  - inversion Hi; subst. lia.
  - rewrite (IH i p q Hi). lia.
Qed.

Lemma pending_unreleased (us : list pc) : forall i p,
  us !! i = Some p -> released p = false -> 1 <= pending us.
Proof.
  induction us as [|u us IH]; intros [|i] p Hi Hp; cbn in *; try discriminate.
  - inversion Hi; subst. rewrite Hp. pose proof (pending_nonneg us). lia.
  - pose proof (IH i p Hi Hp). destruct (released u); lia.
Qed.

Lemma pending_zero_released (us : list pc) :
  pending us = 0 -> Forall (fun p => released p = true) us.
Proof.
  induction us as [|u us IH]; cbn; intros Hz; [constructor|].
  pose proof (pending_nonneg us).
  destruct (released u) eqn:Hu; [|lia].
  constructor; [exact Hu|apply IH; lia].
Qed.

Lemma from_go_app (cs ds : list caller) :
  from_go (cs ++ ds) = (from_go cs + from_go ds)%nat.
Proof.
  induction cs as [|[i|] cs IH]; cbn; [reflexivity| |]; rewrite IH; lia.
Qed.

Lemma collect_empty (e : error) (c : errCh) :
  errs c = [] -> 0 <= errs_cap c -> collect e (Some c) = Some (Some c).
Proof.
  intros He Hcap. unfold collect, len. rewrite He.
  change (Z.of_nat (length [])) with 0.
  destruct (0 <? 0 - errs_cap c) eqn:Hlt; [|reflexivity].
  apply Z.ltb_lt in Hlt. lia.
Qed.

Lemma collect_inv (maxErrs : Z) (e : error) (ch o : option errCh) :
  (ch = None <-> maxErrs <= 0) ->
  (forall c, ch = Some c -> errs c = [] /\ errs_cap c = maxErrs) ->
  collect e ch = Some o -> o = ch.
Proof.
  intros Hnone Hsome Hc. destruct ch as [c|]; [|now inversion Hc].
  destruct (Hsome c eq_refl) as [He Hcap].
  rewrite collect_empty in Hc; [now inversion Hc|assumption|].
  destruct (Z_le_gt_dec maxErrs 0) as [Hle|Hgt]; [|lia].
  apply Hnone in Hle. discriminate.
Qed.

Section Group_facts.

Context {EB : Type} `{ExponentialBackOff EB}.

Lemma NewGroupWithContext_inv parent maxConcurrency w retryMode maxErrs :
  group_inv maxErrs w
    (start (NewGroupWithContext parent maxConcurrency w retryMode maxErrs)).
Proof.
  constructor; cbn; try reflexivity.
  - destruct (0 <? maxErrs) eqn:Hlt.
    + apply Z.ltb_lt in Hlt. split; [discriminate|lia].
    + apply Z.ltb_ge in Hlt. split; [intros _; lia|reflexivity].
  - intros c. destruct (0 <? maxErrs); [|discriminate].
    intros Hc. inversion Hc. split; reflexivity.
  - intros _. constructor.
Qed.

Lemma exec_inv maxErrs w s l s' :
  exec s l = Some s' -> group_inv maxErrs w s -> group_inv maxErrs w s'.
Proof.
  intros Hx [Hwg Hnone Hsome Halive Hw Honce Hquiet].
  exec_cases Hx;
    repeat match goal with
           | Hc : collect _ _ = Some _ |- _ =>
               apply (collect_inv maxErrs _ _ _ Hnone Hsome) in Hc; subst
           end;
    (constructor; cbn in *;
     [ try match goal with
           | Hl : units _ !! _ = Some _ |- _ =>
               rewrite (pending_insert _ _ _ _ Hl); cbn
           end;
       rewrite ?pending_app; cbn; lia
     | assumption
     | assumption
     | first [ discriminate
             | intros Hp;
               first [specialize (Halive eq_refl) | specialize (Halive Hp)];
               first [ apply Forall_insert; [assumption|discriminate]
                     | apply Forall_app; split;
                       [assumption|repeat constructor; discriminate]
                     | assumption ] ]
     | first [reflexivity | assumption]
     | rewrite ?from_go_app; cbn;
       repeat match goal with
              | Hb : errOnce _ = _ |- _ => rewrite Hb in *
              end; lia
     | first [assumption | discriminate] ]).
Qed.


Lemma run_inv maxErrs w ls : forall s s',
  run s ls = Some s' -> group_inv maxErrs w s -> group_inv maxErrs w s'.
Proof.
  induction ls as [|l ls IH]; intros s s' Hrun Hinv; cbn in Hrun.
  - now inversion Hrun; subst.
  - destruct (exec s l) as [s1|] eqn:Hx; [|discriminate].
    exact (IH s1 s' Hrun (exec_inv _ _ _ _ _ Hx Hinv)).
Qed.

Lemma reachable_inv parent maxConcurrency w retryMode maxErrs ls s :
  run (start (NewGroupWithContext parent maxConcurrency w retryMode maxErrs))
      ls = Some s ->
  group_inv maxErrs w s.
Proof.
  intros Hrun. apply (run_inv _ _ _ _ _ Hrun), NewGroupWithContext_inv.
Qed.

Lemma exec_alive s l s' : exec s l = Some s' -> panicked s = false.
Proof. unfold exec. now destruct (panicked s). Qed.

(** Which steps call [g.cancel()], and which end the context. *)
Lemma exec_cancels s l s' :
  exec s l = Some s' ->
  (cancels s' = cancels s /\
   (ctx (grp s') = ctx (grp s) \/ exists e, l = LParentCancel e)) \/
  (l = LWait /\ wg (grp s) = 0 /\ cancels s' = cancels s ++ [FromWait]) \/
  (exists i, l = LStep i /\ waitAll (grp s) = false /\
             cancels s' = cancels s ++ [FromGo i]).
Proof.
  intros Hx. exec_cases Hx; cbn; eauto 6.
  right. left. split; [reflexivity|]. split; [|reflexivity].
  now apply Z.eqb_eq.
Qed.

(** A goroutine that returned at line 129 stays there. *)
Lemma exec_keeps_early s l s' i :
  exec s l = Some s' ->
  units s !! i = Some ReturnedEarly -> units s' !! i = Some ReturnedEarly.
Proof.
  intros Hx Hi. exec_cases Hx; cbn; try assumption;
    try (apply lookup_app_l_Some; assumption);
    match goal with
    | Hl : units s !! ?j = Some _ |- _ =>
        destruct (decide (j = i)) as [->|Hne];
        [congruence | now rewrite list_lookup_insert_ne]
    end.
Qed.

Lemma run_keeps_early ls i : forall s s',
  run s ls = Some s' ->
  units s !! i = Some ReturnedEarly -> units s' !! i = Some ReturnedEarly.
Proof.
  induction ls as [|l ls IH]; intros s s' Hrun Hi; cbn in Hrun.
  - now inversion Hrun; subst.
  - destruct (exec s l) as [s1|] eqn:Hx; [|discriminate].
    exact (IH s1 s' Hrun (exec_keeps_early _ _ _ _ Hx Hi)).
Qed.

Lemma Wait_blocked_by_early maxErrs w s i :
  group_inv maxErrs w s ->
  units s !! i = Some ReturnedEarly -> Wait s = None.
Proof.
  intros Hinv Hi. unfold Wait. destruct (panicked s); [reflexivity|].
  pose proof (pending_unreleased _ _ _ Hi eq_refl) as Hpos.
  rewrite (inv_wg _ _ _ Hinv).
  destruct (pending (units s) =? 0) eqn:Hz; [|reflexivity].
  apply Z.eqb_eq in Hz. lia.
Qed.

Lemma all_finished maxErrs w s :
  group_inv maxErrs w s -> panicked s = false -> wg (grp s) = 0 ->
  Forall (fun p => p = Finished) (units s).
Proof.
  intros Hinv Hp Hz.
  rewrite (inv_wg _ _ _ Hinv) in Hz.
  pose proof (pending_zero_released _ Hz) as Hrel.
  pose proof (inv_alive _ _ _ Hinv Hp) as Hal.
  rewrite Forall_forall in *. intros p Hin.
  specialize (Hrel p Hin). specialize (Hal p Hin).
  destruct p; cbn in Hrel; congruence.
Qed.

End Group_facts.

Section Group_claims.

Context {EB : Type} `{ExponentialBackOff EB}.

(** The error channel of a group is empty in every state of every
    schedule: the test of lines 124 and 143 never lets a send through. *)
Lemma errs_never_collected parent maxConcurrency w retryMode maxErrs ls s c :
  run (start (NewGroupWithContext parent maxConcurrency w retryMode maxErrs))
      ls = Some s ->
  err (grp s) = Some c -> errs c = [].
Proof.
  intros Hrun Hc.
  exact (proj1 (inv_err_some _ _ _ (reachable_inv _ _ _ _ _ _ _ Hrun) c Hc)).
Qed.

(** The counter of the wait group is, in every state of every schedule,
    the number of goroutines that have not yet run their deferred
    [wg.Done()]. *)
Lemma wg_counts_unreleased parent maxConcurrency w retryMode maxErrs ls s :
  run (start (NewGroupWithContext parent maxConcurrency w retryMode maxErrs))
      ls = Some s ->
  wg (grp s) = pending (units s).
Proof.
  intros Hrun. exact (inv_wg _ _ _ (reachable_inv _ _ _ _ _ _ _ Hrun)).
Qed.

(** X11: the [errOnce] of the goroutines calls [g.cancel()] at most once
    over a whole schedule, in either mode and however many goroutines
    reach lines 149-153. *)
Lemma errOnce_cancels_once parent maxConcurrency w retryMode maxErrs ls s :
  run (start (NewGroupWithContext parent maxConcurrency w retryMode maxErrs))
      ls = Some s ->
  (from_go (cancels s) <= 1)%nat.
Proof.
  intros Hrun.
  rewrite (inv_once _ _ _ (reachable_inv _ _ _ _ _ _ _ Hrun)).
  destruct (errOnce (grp s)); lia.
Qed.

(** C1: on the scenario of section 8 (capacity 3, five tasks that always
    fail, run-to-completion, no semaphore) the schedule in which every
    goroutine runs to its exit is a run of the program, and [Wait] then
    returns the error channel with no error in it: its length is 0 where
    the claim says 3. *)
Theorem C1_five_failures_none_collected :
  run_then_Wait five_failures_group five_failures =
    Some (Some {| errs := []; errs_cap := 3 |}).
Proof. reflexivity. Qed.

(** C2: with one permit in fail-fast mode the schedule [starved] is a run
    of the program; it ends with both goroutines exited, the second at
    line 129 without [wg.Done()], the counter at 1, and [Wait] blocked;
    and [Wait] stays blocked whatever runs afterwards. *)
Theorem C2_early_return_never_released :
  exists s, run (start starved_group) starved = Some s /\
            units s = [Finished; ReturnedEarly] /\
            wg (grp s) = 1 /\
            Wait s = None /\
            forall ls s', run s ls = Some s' -> Wait s' = None.
Proof.
  eexists. split; [vm_compute; reflexivity|].
  split; [reflexivity|]. split; [reflexivity|]. split; [reflexivity|].
  intros ls s' Hrun.
  assert (Hfrom : run (start starved_group) (starved ++ ls) = Some s').
  { exact Hrun. }
  apply (Wait_blocked_by_early 3 false s' 1%nat).
  - exact (reachable_inv None 1 false (Some no_retry) 3 _ _ Hfrom).
  - apply (run_keeps_early ls 1%nat _ _ Hrun). reflexivity.
Qed.

(** C3: in fail-fast mode, on a single task that succeeds, the goroutine
    reaches the end of the function body having called [g.cancel()]: the
    context is cancelled before [Wait] is called although no task has
    failed. *)
Theorem C3_success_cancels :
  exists s, run (start one_success_group) one_success = Some s /\
            units s = [AtDefer] /\
            ctx (grp s) = Some Canceled /\
            cancels s = [FromGo 0] /\
            err (grp s) = Some {| errs := []; errs_cap := 1 |}.
Proof. eexists. split; [vm_compute; reflexivity|]. repeat split. Qed.

(** C4: without retry options the closure [fun] is nil for every task, and
    the goroutine of a submitted task panics at line 140 without having
    called the task. *)
Theorem C4_nil_fun_panics :
  (forall f : Task, call_fun None f = NilCall) /\
  exists s, run (start no_options_group) no_options = Some s /\
            units s = [Panicked] /\
            panicked s = true /\
            forall l, exec s l = None.
Proof.
  split; [reflexivity|].
  eexists. split; [vm_compute; reflexivity|]. repeat split.
Qed.


(** C8: whatever the schedule, when [Wait] returns it returns the error
    channel of the group; the result is nil exactly when the group was
    made with [maxErrs <= 0], and with [maxErrs > 0] it is a channel of
    that capacity, so that nil is never the answer of a group that tracks
    errors. *)
Theorem C8_Wait_result parent maxConcurrency w retryMode maxErrs ls s s' r :
  run (start (NewGroupWithContext parent maxConcurrency w retryMode maxErrs))
      ls = Some s ->
  Wait s = Some (s', r) ->
  r = err (grp s) /\
  (r = None <-> maxErrs <= 0) /\
  (0 < maxErrs -> exists c, r = Some c /\ errs_cap c = maxErrs).
Proof.
  intros Hrun HW.
  pose proof (reachable_inv _ _ _ _ _ _ _ Hrun) as Hinv.
  assert (Hr : r = err (grp s)).
  { unfold Wait in HW. destruct (panicked s); [discriminate|].
    destruct (wg (grp s) =? 0); now inversion HW. }
  split; [exact Hr|]. subst r.
  split; [exact (inv_err_none _ _ _ Hinv)|].
  intros Hpos. destruct (err (grp s)) as [c|] eqn:Hc.
  - exists c. split; [reflexivity|].
    exact (proj2 (inv_err_some _ _ _ Hinv c Hc)).
  - apply (inv_err_none _ _ _ Hinv) in Hc. lia.
Qed.

End Group_claims.

(** * More about the backoff strategies *)

Section Backoff_more.

Context {EB : Type} `{ExponentialBackOff EB}.

Implicit Types (b : backoffOpt EB) (f : Task) (o : RetryOption).

Lemma delays_S b n :
  0 < remainRetries (counter b) ->
  delays (S n) b = fst (NextBackOff b) :: delays n (snd (NextBackOff b)).
Proof.
  intros Hlt. rewrite (NextBackOff_available _ Hlt).
  destruct b as [z|c|e]; cbn; try reflexivity.
  now destruct (eb_NextBackOff (eb e)).
Qed.

(** X1: [NextBackOff] never changes the configured maximum, never raises
    the remaining-attempts counter and never takes it below zero: after
    [n] calls a counter that was positive is [max 0 (remain - n)], and a
    counter that was zero or negative is what it was. *)
Theorem counter_after_nexts b : forall n,
  maxRetries (counter (after_nexts n b)) = maxRetries (counter b) /\
  remainRetries (counter (after_nexts n b)) =
    if remainRetries (counter b) <=? 0
    then remainRetries (counter b)
    else Z.max 0 (remainRetries (counter b) - Z.of_nat n).
Proof.
  intros n. revert b.
  induction n as [|n IH]; intros b.
  - cbn [after_nexts]. split; [reflexivity|].
    destruct (remainRetries (counter b) <=? 0) eqn:Hle; [reflexivity|].
    apply Z.leb_gt in Hle. lia.
  - cbn [after_nexts]. destruct (IH (snd (NextBackOff b))) as [IHm IHr].
    destruct (Z_le_gt_dec (remainRetries (counter b)) 0) as [Hle|Hgt].
    + rewrite (NextBackOff_exhausted _ Hle) in *. cbn [snd] in *.
      split; [exact IHm|]. rewrite IHr.
      destruct (remainRetries (counter b) <=? 0) eqn:H2; [reflexivity|].
      apply Z.leb_gt in H2. lia.
    + assert (Hlt : 0 < remainRetries (counter b)) by lia.
      rewrite (NextBackOff_counter _ Hlt) in IHm, IHr.
      cbn [consume maxRetries remainRetries] in IHm, IHr.
      split; [exact IHm|]. rewrite IHr.
      destruct (remainRetries (counter b) - 1 <=? 0) eqn:H1;
        destruct (remainRetries (counter b) <=? 0) eqn:H2;
        rewrite ?Z.leb_le, ?Z.leb_gt in *; lia.
Qed.

(** X2: the results of [n] successive [NextBackOff] calls are the delays
    of the strategy for as many calls as the counter allows (0 for
    no-delay, the interval for fixed-delay, the values of the curve for
    exponential), and the stop signal from then on. *)
Theorem nexts_within_budget b : forall n,
  nexts n b =
    firstn (Z.to_nat (remainRetries (counter b))) (delays n b)
    ++ repeat Stop (n - Z.to_nat (remainRetries (counter b))).
Proof.
  intros n. revert b.
  induction n as [|n IH]; intros b.
  - cbn [nexts]. replace (delays 0 b) with (@nil Duration) by now destruct b.
    now rewrite firstn_nil.
  - cbn [nexts].
    destruct (Z_le_gt_dec (remainRetries (counter b)) 0) as [Hle|Hgt].
    + rewrite (NextBackOff_exhausted _ Hle), (IH b).
      replace (Z.to_nat (remainRetries (counter b))) with 0%nat by lia.
      cbn [firstn app]. rewrite !Nat.sub_0_r. reflexivity.
    + assert (Hlt : 0 < remainRetries (counter b)) by lia.
      rewrite (delays_S _ _ Hlt).
      pose proof (NextBackOff_counter _ Hlt) as Hc.
      destruct (NextBackOff b) as [d b']. cbn [fst snd] in *.
      rewrite (IH b'), Hc. cbn [remainRetries consume].
      replace (Z.to_nat (remainRetries (counter b)))
        with (S (Z.to_nat (remainRetries (counter b) - 1))) by lia.
      reflexivity.
Qed.

(** X3: an exponential policy queries the curve of the library only while
    attempts remain: after [n] calls of [NextBackOff] the curve has given
    [min n remain] values, none at all when the counter is zero or
    negative. *)
Theorem curve_after_nexts : forall n (e : exponentialBackoff EB),
  eb (after_nexts n e) =
    eb_after (Nat.min n (Z.to_nat (remainRetries (e_cc e)))) (eb e).
Proof.
  induction n as [|n IH]; intros e; [reflexivity|].
  cbn [after_nexts NextBackOff exponentialBackoff_BackOff].
  unfold exponentialBackoff_NextBackOff.
  destruct (0 <? remainRetries (e_cc e)) eqn:Hlt.
  - apply Z.ltb_lt in Hlt.
    replace (Z.to_nat (remainRetries (e_cc e)))
      with (S (Z.to_nat (remainRetries (e_cc e) - 1))) by lia.
    destruct (eb_NextBackOff (eb e)) as [d e'] eqn:He. cbn [snd].
    rewrite IH. cbn [eb e_cc consume remainRetries Nat.min eb_after].
    now rewrite He.
  - apply Z.ltb_ge in Hlt. cbn [snd]. rewrite IH.
    replace (Z.to_nat (remainRetries (e_cc e))) with 0%nat by lia.
    now rewrite !Nat.min_0_r.
Qed.

Lemma retry_loop_bounds f : forall fuel b n zs a,
  retry_loop fuel f b n zs = Some a ->
  (n < calls a)%nat /\
  (calls a <= S n + Z.to_nat (remainRetries (counter b)))%nat /\
  result a = f (calls a - 1)%nat /\
  (forall k, (n <= k < calls a - 1)%nat -> f k <> None) /\
  length (slept a) = (length zs + (calls a - 1 - n))%nat.
Proof.
  induction fuel as [|fuel IH]; intros b n zs a Hrun; [discriminate|].
  rewrite retry_loop_S in Hrun.
  assert (Hn : (S n - 1 = n)%nat) by lia.
  destruct (f n) as [e|] eqn:Hfn.
  - destruct (fst (NextBackOff b) =? Stop) eqn:Hstop.
    + inversion Hrun; subst. cbn [calls result slept]. rewrite Hn.
      repeat split; try lia. now rewrite Hfn.
    + destruct (Z_le_gt_dec (remainRetries (counter b)) 0) as [Hle|Hgt].
      { rewrite (NextBackOff_exhausted _ Hle) in Hstop. discriminate. }
      assert (Hlt : 0 < remainRetries (counter b)) by lia.
      destruct (IH _ _ _ _ Hrun) as (H1 & H2 & H3 & H4 & H5).
      rewrite (NextBackOff_counter _ Hlt) in H2. cbn in H2.
      rewrite length_app in H5. cbn in H5.
      repeat split; try lia; try assumption.
      intros k Hk. destruct (Nat.eq_dec k n) as [->|Hne].
      * rewrite Hfn. discriminate.
      * apply H4. lia.
  - inversion Hrun; subst. cbn [calls result slept]. rewrite Hn.
    repeat split; try lia. now rewrite Hfn.
Qed.

Lemma call_fun_Returned o b f :
  select_backoff o = Some b ->
  exists r n, call_fun (Some o) f = Returned r n.
Proof.
  intros Hsel.
  destruct (retry_loop_total f (S (Z.to_nat (MaxRetries o))) (Reset b)
              0%nat []) as [a Ha].
  { rewrite Reset_counter, (select_backoff_counter _ _ Hsel). cbn. lia. }
  exists (result a), (calls a).
  unfold call_fun, Retry. now rewrite Hsel, Ha.
Qed.

Lemma select_backoff_valid o :
  (Mode o <= 2)%N -> exists b, select_backoff o = Some b.
Proof.
  intros Hmode. unfold select_backoff, Zero, Constant, Exponential.
  destruct (Mode o =? 0)%N eqn:H0; [eauto|].
  destruct (Mode o =? 1)%N eqn:H1; [eauto|].
  destruct (Mode o =? 2)%N eqn:H2; [eauto|].
  apply N.eqb_neq in H0, H1, H2. lia.
Qed.

(** X4: the closure [fun] calls a nil value, and the goroutine panics,
    exactly when the group has no retry options or their mode is none of
    [Zero], [Constant] and [Exponential]; with options of one of the three
    modes it returns, for every task. *)
Theorem call_fun_nil_iff (rm : option RetryOption) f :
  (call_fun (EB:=EB) rm f = NilCall <->
   rm = None \/ exists o, rm = Some o /\ (2 < Mode o)%N) /\
  (forall o, rm = Some o -> (Mode o <= 2)%N ->
             exists r n, call_fun (EB:=EB) rm f = Returned r n).
Proof.
  assert (Hret : forall o, rm = Some o -> (Mode o <= 2)%N ->
                 exists r n, call_fun (EB:=EB) rm f = Returned r n).
  { intros o -> Hmode.
    destruct (select_backoff_valid o Hmode) as [b Hsel].
    exact (call_fun_Returned o b f Hsel). }
  split; [|exact Hret].
  split.
  - intros Hnil. destruct rm as [o|]; [right|now left].
    exists o. split; [reflexivity|].
    destruct (N.le_gt_cases (Mode o) 2) as [Hle|Hgt]; [|exact Hgt].
    destruct (Hret o eq_refl Hle) as (r & n & Hr).
    rewrite Hr in Hnil. discriminate.
  - intros [->|(o & -> & Hmode)]; [reflexivity|].
    unfold call_fun, select_backoff, Zero, Constant, Exponential.
    destruct (Mode o =? 0)%N eqn:H0; [apply N.eqb_eq in H0; lia|].
    destruct (Mode o =? 1)%N eqn:H1; [apply N.eqb_eq in H1; lia|].
    destruct (Mode o =? 2)%N eqn:H2; [apply N.eqb_eq in H2; lia|].
    reflexivity.
Qed.

(** X5: with retry options of one of the three modes the closure [fun]
    returns for every task; it has called the task at least once and at
    most [max 0 MaxRetries + 1] times, every call but the last has failed,
    and what it returns is the result of the last call. *)
Theorem call_fun_bounds o b f :
  select_backoff o = Some b ->
  exists r n,
    call_fun (Some o) f = Returned r n /\
    (1 <= n <= S (Z.to_nat (MaxRetries o)))%nat /\
    r = f (n - 1)%nat /\
    forall k, (k < n - 1)%nat -> f k <> None.
Proof.
  intros Hsel.
  pose proof (select_backoff_counter _ _ Hsel) as Hc.
  destruct (retry_loop_total f (S (Z.to_nat (MaxRetries o))) (Reset b)
              0%nat []) as [a Ha].
  { rewrite Reset_counter, Hc. cbn. lia. }
  destruct (retry_loop_bounds _ _ _ _ _ _ Ha) as (H1 & H2 & H3 & H4 & _).
  rewrite Reset_counter, Hc in H2. cbn in H2.
  exists (result a), (calls a).
  split; [unfold call_fun, Retry; now rewrite Hsel, Ha|].
  split; [lia|]. split; [exact H3|].
  intros k Hk. apply H4. lia.
Qed.

End Backoff_more.

(** * More about the group *)

Lemma holders_nonneg (us : list pc) : 0 <= holders us.
Proof.
  induction us as [|p us IH]; cbn; [lia|]. destruct (holds_permit p); lia.
Qed.

Lemma holders_app (us vs : list pc) :
  holders (us ++ vs) = holders us + holders vs.
Proof. induction us as [|p us IH]; cbn; [reflexivity|]. rewrite IH. lia. Qed.

Lemma holders_insert (us : list pc) : forall i p q,
  us !! i = Some p ->
  holders (<[i := q]> us) =
    holders us - (if holds_permit p then 1 else 0)
    + (if holds_permit q then 1 else 0).
Proof.
  induction us as [|u us IH]; intros [|i] p q Hi; simpl in *; try discriminate.
  - inversion Hi; subst. lia.
  - rewrite (IH i p q Hi). lia.
Qed.

Lemma pending_le_length (us : list pc) : pending us <= Z.of_nat (length us).
Proof.
  induction us as [|p us IH]; cbn [pending length]; [lia|].
  destruct (released p); lia.
Qed.

Section Group_more.

Context {EB : Type} `{ExponentialBackOff EB}.

Lemma NewGroupWithContext_admission parent maxConcurrency w retryMode maxErrs :
  admission_inv maxConcurrency
    (start (NewGroupWithContext parent maxConcurrency w retryMode maxErrs)).
Proof.
  constructor; cbn.
  - reflexivity.
  - lia.
  - intros i Hi. discriminate.
Qed.

Lemma exec_admission maxConcurrency s l s' :
  exec s l = Some s' ->
  admission_inv maxConcurrency s -> admission_inv maxConcurrency s'.
Proof.
  intros Hx [Hsema Hbound Hearly].
  exec_cases Hx;
    repeat match goal with
           | Hs : sema (grp _) = Some _ |- _ => rewrite Hsema in Hs
           | Hs : sema (grp _) = None |- _ => rewrite Hsema in Hs
           end;
    (constructor;
     cbn [grp units sema ctx at_pc with_grp Go set_ctx set_wg set_errOnce
          set_sema set_err set_retryMode deferred cancel];
     [ try rewrite Hsema
     | idtac
     | intros j Hj;
       lazymatch type of Hj with
       | <[_ := _]> _ !! _ = _ =>
           apply list_lookup_insert_Some in Hj as [(-> & Hj & _) | (_ & Hj)];
           [try discriminate Hj|]
       | (_ ++ _) !! _ = _ =>
           apply lookup_app_Some in Hj as [Hj | (_ & Hj)];
           [|destruct (j - length (units s))%nat as [|[|?]]; discriminate Hj]
       | _ => idtac
       end;
       try (destruct (Hearly j Hj) as [Hpos Hctx]) ];
     repeat match goal with
            | Hl : units _ !! _ = Some _ |- context [holders (<[_ := _]> _)] =>
                rewrite (holders_insert _ _ _ _ Hl)
            end;
     rewrite ?holders_app; cbn [holders holds_permit];
     destruct (0 <? maxConcurrency) eqn:Hmc;
     repeat match goal with
            | Hs : context [0 <? maxConcurrency] |- _ =>
                lazymatch Hs with
                | Hmc => fail
                | _ => rewrite Hmc in Hs
                end
            end;
     repeat match goal with
            | Hs : Some _ = Some _ |- _ => inversion Hs; subst; clear Hs
            | Hs : None = Some _ |- _ => discriminate Hs
            | Hs : Some _ = None |- _ => discriminate Hs
            | Hb : (_ <? _) = true |- _ => apply Z.ltb_lt in Hb
            | Hb : (_ <? _) = false |- _ => apply Z.ltb_ge in Hb
            end;
     cbn [release size cur] in *;
     try reflexivity;
     try (f_equal; f_equal; lia);
     try (intros; lia);
     try (match goal with
          | Hs : sema (grp s) = _ |- sema (grp s) = _ => rewrite Hs
          end; first [reflexivity | f_equal; f_equal; lia]);
     try (split; [lia|];
          first [ assumption | discriminate | congruence
                | destruct (ctx (grp s)); [discriminate|contradiction] ])).
Qed.

Lemma run_admission maxConcurrency ls : forall s s',
  run s ls = Some s' ->
  admission_inv maxConcurrency s -> admission_inv maxConcurrency s'.
Proof.
  induction ls as [|l ls IH]; intros s s' Hrun Hinv; cbn in Hrun.
  - now inversion Hrun; subst.
  - destruct (exec s l) as [s1|] eqn:Hx; [|discriminate].
    exact (IH s1 s' Hrun (exec_admission _ _ _ _ Hx Hinv)).
Qed.

Lemma reachable_admission parent maxConcurrency w retryMode maxErrs ls s :
  run (start (NewGroupWithContext parent maxConcurrency w retryMode maxErrs))
      ls = Some s ->
  admission_inv maxConcurrency s.
Proof.
  intros Hrun.
  apply (run_admission _ _ _ _ Hrun), NewGroupWithContext_admission.
Qed.

Lemma exec_cancel_inv s l s' :
  exec s l = Some s' -> cancel_inv s -> cancel_inv s'.
Proof.
  intros Hx [Honce Hpast].
  exec_cases Hx;
    (constructor;
     cbn [grp units sema ctx errOnce waitAll at_pc with_grp Go set_ctx
          set_wg set_errOnce set_sema set_err set_retryMode deferred cancel];
     [ intros Hf; try specialize (Honce Hf);
       first [ assumption | discriminate | congruence
             | exact (Honce eq_refl)
             | destruct (ctx (grp s)); [discriminate|contradiction]
             | destruct (ctx (grp s)); discriminate ]
     | intros Hw j p Hj Hp;
       lazymatch type of Hj with
       | <[_ := _]> _ !! _ = _ =>
           apply list_lookup_insert_Some in Hj as [(-> & <- & _) | (_ & Hj)];
           [try discriminate Hp|]
       | (_ ++ _) !! _ = _ =>
           apply lookup_app_Some in Hj as [Hj | (_ & Hj)];
           [|destruct (j - length (units s))%nat as [|[|?]];
             [inversion Hj; subst; discriminate Hp
             |discriminate Hj|discriminate Hj]]
       | _ => idtac
       end;
       first [ reflexivity | congruence
             | exact (Hpast Hw _ _ Hj Hp)
             | match goal with
               | Hl : units s !! _ = Some AtDefer |- _ =>
                   exact (Hpast Hw _ _ Hl eq_refl)
               end ] ]).
Qed.

Lemma run_cancel_inv ls : forall s s',
  run s ls = Some s' -> cancel_inv s -> cancel_inv s'.
Proof.
  induction ls as [|l ls IH]; intros s s' Hrun Hinv; cbn in Hrun.
  - now inversion Hrun; subst.
  - destruct (exec s l) as [s1|] eqn:Hx; [|discriminate].
    exact (IH s1 s' Hrun (exec_cancel_inv _ _ _ Hx Hinv)).
Qed.

Lemma start_cancel_inv g : errOnce g = false -> cancel_inv (start g).
Proof.
  intros Hg. constructor; cbn.
  - rewrite Hg. discriminate.
  - intros _ i p Hi. discriminate.
Qed.

Lemma exec_ctx_sticky s l s' e :
  exec s l = Some s' -> ctx (grp s) = Some e -> ctx (grp s') = Some e.
Proof.
  intros Hx He. exec_cases Hx; cbn; try assumption; try congruence;
    rewrite He; reflexivity.
Qed.

Lemma mark_wrapped_twice rm : mark_wrapped (mark_wrapped rm) = mark_wrapped rm.
Proof. now destruct rm. Qed.

Lemma exec_options rm s l s' :
  exec s l = Some s' -> options_of rm (grp s) -> options_of rm (grp s').
Proof.
  unfold options_of. intros Hx Hrm.
  exec_cases Hx; cbn; try assumption;
    (destruct Hrm as [->| ->]; [now right|right; apply mark_wrapped_twice]).
Qed.

Lemma run_options rm ls : forall s s',
  run s ls = Some s' -> options_of rm (grp s) -> options_of rm (grp s').
Proof.
  induction ls as [|l ls IH]; intros s s' Hrun Hinv; cbn in Hrun.
  - now inversion Hrun; subst.
  - destruct (exec s l) as [s1|] eqn:Hx; [|discriminate].
    exact (IH s1 s' Hrun (exec_options _ _ _ _ Hx Hinv)).
Qed.

Lemma options_select (o : RetryOption) (b : backoffOpt EB) g :
  select_backoff o = Some b ->
  options_of (Some o) g ->
  exists o', retryMode g = Some o' /\ select_backoff o' = Some b /\
             Mode o' = Mode o /\ Interval o' = Interval o /\
             MaxRetries o' = MaxRetries o.
Proof.
  intros Hsel [Hg|Hg]; rewrite Hg; cbn; eexists; (split; [reflexivity|]);
    (split; [exact Hsel|]); repeat split.
Qed.

Lemma exec_no_panic (o : RetryOption) (b : backoffOpt EB) s l s' :
  exec s l = Some s' ->
  retryMode (grp s) = Some o -> select_backoff o = Some b ->
  panicked s' = false.
Proof.
  intros Hx Ho Hsel.
  pose proof (exec_alive _ _ _ Hx) as Halive.
  exec_cases Hx; cbn; try assumption; try reflexivity.
  match goal with
  | Hc : call_fun _ ?f = NilCall |- _ =>
      rewrite Ho in Hc;
      destruct (call_fun_Returned o b f Hsel) as (r & n & Hr);
      rewrite Hr in Hc; discriminate Hc
  end.
Qed.

Lemma exec_length s l s' :
  exec s l = Some s' ->
  length (units s') = (length (units s) + count_go [l])%nat.
Proof.
  intros Hx. exec_cases Hx; cbn [units at_pc with_grp Go count_go];
    rewrite ?length_insert, ?length_app; cbn [length]; lia.
Qed.

(** X6: with [maxConcurrency > 0] the semaphore has that size in every
    state of every schedule, the permits in use are exactly those of the
    goroutines between a successful [Acquire] and their deferred
    [Release], and there are never more than [maxConcurrency] of them;
    with [maxConcurrency <= 0] there is no semaphore. *)
Theorem permits_bounded parent maxConcurrency w retryMode maxErrs ls s :
  run (start (NewGroupWithContext parent maxConcurrency w retryMode maxErrs))
      ls = Some s ->
  sema (grp s) =
    (if 0 <? maxConcurrency
     then Some {| size := maxConcurrency; cur := holders (units s) |}
     else None) /\
  (0 < maxConcurrency -> 0 <= holders (units s) <= maxConcurrency).
Proof.
  intros Hrun.
  pose proof (reachable_admission _ _ _ _ _ _ _ Hrun) as Hadm.
  split; [exact (adm_sema _ _ Hadm)|].
  intros Hpos. split; [apply holders_nonneg|exact (adm_bound _ _ Hadm Hpos)].
Qed.

(** X7: a goroutine returns at line 129, without running the task and
    without [wg.Done()], only in a group that has a semaphore and whose
    context is done; a group made with [maxConcurrency <= 0] never has
    such a goroutine. *)
Theorem early_return_needs_cancellation
  parent maxConcurrency w retryMode maxErrs ls s i :
  run (start (NewGroupWithContext parent maxConcurrency w retryMode maxErrs))
      ls = Some s ->
  units s !! i = Some ReturnedEarly ->
  0 < maxConcurrency /\ ctx (grp s) <> None.
Proof.
  intros Hrun Hi.
  exact (adm_early _ _ (reachable_admission _ _ _ _ _ _ _ Hrun) i Hi).
Qed.

(** X9: the error channel of the group is, in every state of every
    schedule, the one the constructor made: nil when [maxErrs <= 0], an
    empty channel of capacity [maxErrs] otherwise. *)
Theorem err_channel_never_changes parent maxConcurrency w retryMode maxErrs ls s :
  run (start (NewGroupWithContext parent maxConcurrency w retryMode maxErrs))
      ls = Some s ->
  err (grp s) =
    if 0 <? maxErrs then Some {| errs := []; errs_cap := maxErrs |} else None.
Proof.
  intros Hrun.
  pose proof (reachable_inv _ _ _ _ _ _ _ Hrun) as Hinv.
  destruct (0 <? maxErrs) eqn:Hlt.
  - apply Z.ltb_lt in Hlt.
    destruct (err (grp s)) as [c|] eqn:Hc.
    + destruct (inv_err_some _ _ _ Hinv c Hc) as [He Hcap].
      destruct c as [es cap]. cbn in *. now subst.
    + apply (inv_err_none _ _ _ Hinv) in Hc. lia.
  - apply Z.ltb_ge in Hlt. now apply (inv_err_none _ _ _ Hinv).
Qed.

Lemma run_length ls : forall s s',
  run s ls = Some s' ->
  length (units s') = (length (units s) + count_go ls)%nat.
Proof.
  induction ls as [|l ls IH]; intros s s' Hrun; cbn [run] in Hrun.
  - inversion Hrun; subst. cbn. lia.
  - destruct (exec s l) as [s1|] eqn:Hx; [|discriminate].
    rewrite (IH _ _ Hrun), (exec_length _ _ _ Hx).
    destruct l; cbn [count_go]; lia.
Qed.

(** X10: in every state of every schedule the counter of the wait group
    is the number of goroutines that have not run their deferred
    [wg.Done()]; it is never negative and never more than the number of
    [Go] calls made, which is the number of goroutines spawned. *)
Theorem wg_counter_bounds parent maxConcurrency w retryMode maxErrs ls s :
  run (start (NewGroupWithContext parent maxConcurrency w retryMode maxErrs))
      ls = Some s ->
  wg (grp s) = pending (units s) /\
  0 <= wg (grp s) <= Z.of_nat (count_go ls) /\
  length (units s) = count_go ls.
Proof.
  intros Hrun.
  pose proof (inv_wg _ _ _ (reachable_inv _ _ _ _ _ _ _ Hrun)) as Hwg.
  pose proof (run_length _ _ _ Hrun) as Hlen. cbn in Hlen.
  pose proof (pending_nonneg (units s)).
  pose proof (pending_le_length (units s)).
  repeat split; lia.
Qed.

(** X12: once the context of the group is done its error never changes:
    neither a later cancellation by a goroutine or by [Wait], nor the end
    of the parent context, replaces it. *)
Theorem ctx_error_is_kept ls : forall s s' e,
  run s ls = Some s' -> ctx (grp s) = Some e -> ctx (grp s') = Some e.
Proof.
  induction ls as [|l ls IH]; intros s s' e Hrun He; cbn in Hrun.
  - now inversion Hrun; subst.
  - destruct (exec s l) as [s1|] eqn:Hx; [|discriminate].
    exact (IH s1 s' e Hrun (exec_ctx_sticky _ _ _ _ Hx He)).
Qed.

(** X14: in fail-fast mode the context is done in every state in which
    some goroutine has gone past the cancellation check of lines 149-153,
    whatever its task returned. *)
Theorem fail_fast_cancels_on_completion
  parent maxConcurrency retryMode maxErrs ls s i p :
  run (start (NewGroupWithContext parent maxConcurrency false retryMode maxErrs))
      ls = Some s ->
  units s !! i = Some p -> past_cancel p = true ->
  errOnce (grp s) = true /\ ctx (grp s) <> None.
Proof.
  intros Hrun Hi Hp.
  pose proof (inv_waitAll _ _ _ (reachable_inv _ _ _ _ _ _ _ Hrun)) as Hw.
  assert (Hinv : cancel_inv s).
  { apply (run_cancel_inv _ _ _ Hrun), start_cancel_inv. reflexivity. }
  pose proof (cnl_past _ Hinv Hw i p Hi Hp) as Honce.
  split; [exact Honce|exact (cnl_once _ Hinv Honce)].
Qed.

(** X15: with retry options whose mode is one of the three constants no
    goroutine ever panics, and the options keep their mode, interval and
    budget in every state: only the [wrapped] mark is ever written. *)
Theorem no_panic_with_options
  parent maxConcurrency w (o : RetryOption) (b : backoffOpt EB) maxErrs ls s :
  select_backoff o = Some b ->
  run (start (NewGroupWithContext parent maxConcurrency w (Some o) maxErrs))
      ls = Some s ->
  panicked s = false /\
  Forall (fun p => p <> Panicked) (units s) /\
  exists o', retryMode (grp s) = Some o' /\
             Mode o' = Mode o /\ Interval o' = Interval o /\
             MaxRetries o' = MaxRetries o.
Proof.
  intros Hsel Hrun.
  assert (Hopt : options_of (Some o) (grp s)).
  { apply (run_options _ _ _ _ Hrun). now left. }
  assert (Hp : panicked s = false).
  { clear Hopt. revert s Hrun.
    induction ls as [|l ls IH] using rev_ind; intros s Hrun.
    - inversion Hrun; subst. reflexivity.
    - assert (Hsplit : exists s1, run (start (NewGroupWithContext parent
                maxConcurrency w (Some o) maxErrs)) ls = Some s1 /\
                exec s1 l = Some s).
      { clear IH. revert Hrun.
        generalize (start (NewGroupWithContext parent maxConcurrency w
                             (Some o) maxErrs)).
        induction ls as [|l0 ls IH]; intros s0 Hrun; cbn [app run] in *.
        - destruct (exec s0 l) as [s1|] eqn:Hx; [|discriminate].
          inversion Hrun; subst. eauto.
        - destruct (exec s0 l0) as [s1|] eqn:Hx; [|discriminate].
          exact (IH s1 Hrun). }
      destruct Hsplit as (s1 & Hrun1 & Hx).
      assert (Hopt1 : options_of (Some o) (grp s1)).
      { apply (run_options _ _ _ _ Hrun1). now left. }
      destruct (options_select o b _ Hsel Hopt1) as (o' & Ho' & Hsel' & _).
      exact (exec_no_panic o' b _ _ _ Hx Ho' Hsel'). }
  split; [exact Hp|].
  split; [exact (inv_alive _ _ _ (reachable_inv _ _ _ _ _ _ _ Hrun) Hp)|].
  destruct (options_select o b _ Hsel Hopt) as (o' & Ho' & _ & Hm & Hi & Hr).
  eauto.
Qed.

Lemma run_alive (o : RetryOption) (b : backoffOpt EB) ls : forall s s',
  select_backoff o = Some b ->
  run s ls = Some s' ->
  panicked s = false -> options_of (Some o) (grp s) ->
  panicked s' = false.
Proof.
  induction ls as [|l ls IH]; intros s s' Hsel Hrun Hp Hopt; cbn in Hrun.
  - now inversion Hrun; subst.
  - destruct (exec s l) as [s1|] eqn:Hx; [|discriminate].
    destruct (options_select o b _ Hsel Hopt) as (o' & Ho' & Hsel' & _).
    apply (IH s1 s' Hsel Hrun).
    + exact (exec_no_panic o' b _ _ _ Hx Ho' Hsel').
    + exact (exec_options _ _ _ _ Hx Hopt).
Qed.

(** X16: in a group whose retry options have one of the three modes, in
    every state of every schedule [Wait] returns exactly when every
    spawned goroutine has finished after its deferred [wg.Done()]; a
    goroutine still running, or one that returned at line 129, keeps it
    blocked. *)
Theorem Wait_returns_iff_all_finished
  parent maxConcurrency w (o : RetryOption) (b : backoffOpt EB) maxErrs ls s :
  select_backoff o = Some b ->
  run (start (NewGroupWithContext parent maxConcurrency w (Some o) maxErrs))
      ls = Some s ->
  (Wait s <> None <-> Forall (fun p => p = Finished) (units s)) /\
  (Wait s <> None <-> wg (grp s) = 0).
Proof.
  intros Hsel Hrun.
  pose proof (reachable_inv _ _ _ _ _ _ _ Hrun) as Hinv.
  assert (Hp : panicked s = false).
  { apply (run_alive o b _ _ _ Hsel Hrun); [reflexivity|now left]. }
  assert (Hwait : Wait s <> None <-> wg (grp s) = 0).
  { unfold Wait. rewrite Hp.
    destruct (wg (grp s) =? 0) eqn:Hz.
    - apply Z.eqb_eq in Hz. split; [intros _; exact Hz|discriminate].
    - apply Z.eqb_neq in Hz. split; [congruence|contradiction]. }
  split; [|exact Hwait].
  rewrite Hwait. split.
  - intros Hz. exact (all_finished _ _ _ Hinv Hp Hz).
  - intros Hall. rewrite (inv_wg _ _ _ Hinv).
    clear -Hall. induction Hall as [|p us Hp _ IH]; [reflexivity|].
    subst p. cbn. lia.
Qed.

End Group_more.

(** X8: the test of lines 124 and 143 and the send it guards exclude each
    other: whatever the state of the channel, the guarded insert leaves it
    as it is, and it blocks exactly when the channel holds more values
    than its capacity. *)
Theorem collect_leaves_channel (e : error) (ch : option errCh) :
  (forall o, collect e ch = Some o -> o = ch) /\
  (collect e ch = None <->
   exists c, ch = Some c /\ errs_cap c < len c).
Proof.
  unfold collect, send. destruct ch as [c|].
  - destruct (0 <? len c - errs_cap c) eqn:Hguard.
    + apply Z.ltb_lt in Hguard.
      destruct (len c <? errs_cap c) eqn:Hroom.
      * apply Z.ltb_lt in Hroom. lia.
      * split; [discriminate|]. split; [|reflexivity].
        intros _. exists c. split; [reflexivity|lia].
    + apply Z.ltb_ge in Hguard. split.
      * intros o Ho. now inversion Ho.
      * split; [discriminate|]. intros (c' & Hc & Hlt).
        inversion Hc; subst. lia.
  - split.
    + intros o Ho. now inversion Ho.
    + split; [discriminate|]. intros (c & Hc & _). discriminate.
Qed.

(** X13: when [Wait] returns, the context of the group is done; a second
    [Wait] returns at once with the same channel and changes nothing in
    the group or its goroutines. *)
Theorem Wait_twice s s' r :
  Wait s = Some (s', r) ->
  ctx (grp s') <> None /\
  exists s'', Wait s' = Some (s'', r) /\
              grp s'' = grp s' /\ units s'' = units s'.
Proof.
  unfold Wait. intros HW.
  destruct (panicked s); [discriminate|].
  destruct (wg (grp s) =? 0) eqn:Hz; [|discriminate].
  inversion HW; subst. cbn. rewrite Hz.
  split; [destruct (ctx (grp s)); discriminate|].
  eexists. split; [reflexivity|]. cbn.
  split; [|reflexivity].
  unfold cancel. cbn. destruct (ctx (grp s)); reflexivity.
Qed.

(** * Every goroutine in turn: the group drains and [Wait] returns *)

Lemma collect_room (e : error) (ch : option errCh) :
  (forall c, ch = Some c -> len c <= errs_cap c) -> collect e ch = Some ch.
Proof.
  intros Hroom. destruct ch as [c|]; [|reflexivity].
  specialize (Hroom c eq_refl). unfold collect.
  destruct (0 <? len c - errs_cap c) eqn:Hg; [|reflexivity].
  apply Z.ltb_lt in Hg. lia.
Qed.

Lemma lookup_repeat_middle {A} (a x : A) (l : list A) : forall j,
  (repeat a j ++ x :: l) !! j = Some x.
Proof. induction j as [|j IH]; [reflexivity|exact IH]. Qed.

Lemma insert_repeat_middle {A} (a x y : A) (l : list A) : forall j,
  <[j := y]> (repeat a j ++ x :: l) = repeat a j ++ y :: l.
Proof.
  induction j as [|j IH]; [reflexivity|].
  change (a :: <[j := y]> (repeat a j ++ x :: l) = a :: repeat a j ++ y :: l).
  now rewrite IH.
Qed.

Lemma repeat_middle {A} (a : A) (l : list A) (j : nat) :
  repeat a j ++ a :: l = repeat a (S j) ++ l.
Proof.
  induction j as [|j IH]; [reflexivity|]. cbn in *. now rewrite IH.
Qed.

Section Drain.

Context {EB : Type} `{ExponentialBackOff EB}.

Lemma run_app ls1 : forall ls2 s,
  run s (ls1 ++ ls2) =
    match run s ls1 with
    | Some s1 => run s1 ls2
    | None => None
    end.
Proof.
  induction ls1 as [|l ls1 IH]; intros ls2 s; [reflexivity|].
  cbn [app run]. destruct (exec s l); [apply IH|reflexivity].
Qed.

(** One step of goroutine [j], the state written out. *)
Lemma step_at g us cs j p :
  (j < length us)%nat ->
  step_unit j {| grp := g; units := <[j := p]> us; panicked := false;
                 cancels := cs |} =
  match p with
  | AtAcquire f =>
      match sema g with
      | None => Some {| grp := g; units := <[j := AtRun f]> us;
                        panicked := false; cancels := cs |}
      | Some _ => None
      end
  | AtRun f =>
      match call_fun (retryMode g) f with
      | Returned r n =>
          Some {| grp := set_retryMode (mark_wrapped (retryMode g)) g;
                  units := <[j := AtCollect r n]> us;
                  panicked := false; cancels := cs |}
      | NilCall =>
          Some {| grp := deferred
                           (set_retryMode (mark_wrapped (retryMode g)) g);
                  units := <[j := Panicked]> us;
                  panicked := true; cancels := cs |}
      | Running => None
      end
  | AtCollect r n =>
      match r with
      | None => Some {| grp := g; units := <[j := AtCancel]> us;
                        panicked := false; cancels := cs |}
      | Some e =>
          match collect e (err g) with
          | Some ch => Some {| grp := set_err ch g;
                               units := <[j := AtCancel]> us;
                               panicked := false; cancels := cs |}
          | None => None
          end
      end
  | AtCancel =>
      if waitAll g || errOnce g
      then Some {| grp := g; units := <[j := AtDefer]> us;
                   panicked := false; cancels := cs |}
      else Some {| grp := cancel (set_errOnce true g);
                   units := <[j := AtDefer]> us;
                   panicked := false; cancels := cs ++ [FromGo j] |}
  | AtDefer => Some {| grp := deferred g; units := <[j := Finished]> us;
                       panicked := false; cancels := cs |}
  | Finished | ReturnedEarly | Panicked => None
  end.
Proof.
  intros Hj. unfold step_unit, at_pc.
  cbn [grp units panicked cancels].
  rewrite list_lookup_insert_eq by exact Hj.
  destruct p as [f|f|r n| | | | |]; try reflexivity.
  - destruct (sema g); [reflexivity|]. now rewrite list_insert_insert_eq.
  - destruct (call_fun (retryMode g) f);
      try reflexivity; now rewrite list_insert_insert_eq.
  - destruct r as [e|]; [destruct (collect e (err g))|];
      try reflexivity; now rewrite list_insert_insert_eq.
  - destruct (waitAll g), (errOnce g); cbn [orb];
      now rewrite list_insert_insert_eq.
  - now rewrite list_insert_insert_eq.
Qed.

Lemma acquire_at g us cs j f w :
  (j < length us)%nat -> sema g = Some w -> cur w < size w ->
  step_acquire j {| grp := g; units := <[j := AtAcquire f]> us;
                    panicked := false; cancels := cs |} =
  Some {| grp := set_sema (Some {| size := size w; cur := cur w + 1 |}) g;
          units := <[j := AtRun f]> us; panicked := false; cancels := cs |}.
Proof.
  intros Hj Hw Hlt. unfold step_acquire, at_pc.
  cbn [grp units panicked cancels].
  rewrite list_lookup_insert_eq by exact Hj. rewrite Hw.
  apply Z.ltb_lt in Hlt. rewrite Hlt.
  now rewrite list_insert_insert_eq.
Qed.

Lemma run_cons s l ls :
  run s (l :: ls) =
    match exec s l with
    | Some s' => run s' ls
    | None => None
    end.
Proof. reflexivity. Qed.

Lemma exec_alive_step (l : label) g us cs :
  exec {| grp := g; units := us; panicked := false; cancels := cs |} l =
  match l with
  | LAcquire i =>
      step_acquire i {| grp := g; units := us; panicked := false;
                        cancels := cs |}
  | LStep i =>
      step_unit i {| grp := g; units := us; panicked := false;
                     cancels := cs |}
  | _ => exec {| grp := g; units := us; panicked := false; cancels := cs |} l
  end.
Proof. now destruct l. Qed.

(** A goroutine that holds its permit runs the task, offers the error,
    passes the cancellation check and runs its deferred closure. *)
Lemma runs_to_exit (b : backoffOpt EB) ch j f base g cs o :
  (j < length base)%nat ->
  retryMode g = Some o -> select_backoff o = Some b ->
  err g = ch -> (forall c, ch = Some c -> len c <= errs_cap c) ->
  exists g' cs',
    run {| grp := g; units := <[j := AtRun f]> base; panicked := false;
           cancels := cs |} [LStep j; LStep j; LStep j; LStep j] =
      Some {| grp := g'; units := <[j := Finished]> base; panicked := false;
              cancels := cs' |} /\
    wg g' = wg g - 1 /\ sema g' = release (sema g) /\ err g' = ch /\
    retryMode g' = mark_wrapped (Some o) /\
    waitAll g' = waitAll g /\ (waitAll g = true -> ctx g' = ctx g).
Proof.
  intros Hj Ho Hsel Herr Hroom.
  destruct (call_fun_Returned o b f Hsel) as (r & n & Hcall).
  cbn [run]. rewrite exec_alive_step, (step_at _ _ _ _ _ Hj), Ho, Hcall.
  rewrite exec_alive_step, (step_at _ _ _ _ _ Hj).
  assert (Hstep : exists g2,
            match r with
            | Some e =>
                match collect e (err (set_retryMode (mark_wrapped (Some o)) g))
                with
                | Some ch0 =>
                    Some {| grp := set_err ch0
                                     (set_retryMode (mark_wrapped (Some o)) g);
                            units := <[j := AtCancel]> base;
                            panicked := false; cancels := cs |}
                | None => None
                end
            | None =>
                Some {| grp := set_retryMode (mark_wrapped (Some o)) g;
                        units := <[j := AtCancel]> base;
                        panicked := false; cancels := cs |}
            end = Some {| grp := g2; units := <[j := AtCancel]> base;
                          panicked := false; cancels := cs |} /\
            wg g2 = wg g /\ sema g2 = sema g /\ err g2 = ch /\
            retryMode g2 = mark_wrapped (Some o) /\
            waitAll g2 = waitAll g /\ ctx g2 = ctx g).
  { destruct r as [e|].
    - rewrite collect_room by (cbn [err set_retryMode]; now rewrite Herr).
      eexists. split; [reflexivity|]. cbn. auto 7.
    - eexists. split; [reflexivity|]. cbn. auto 7. }
  destruct Hstep as (g2 & -> & Hwg2 & Hsema2 & Herr2 & Hrm2 & Hw2 & Hctx2).
  rewrite exec_alive_step, (step_at _ _ _ _ _ Hj).
  destruct (waitAll g2 || errOnce g2) eqn:Hb.
  - rewrite exec_alive_step, (step_at _ _ _ _ _ Hj).
    eexists. eexists. split; [reflexivity|]. cbn.
    rewrite Hwg2, Hsema2. auto 7.
  - rewrite exec_alive_step, (step_at _ _ _ _ _ Hj).
    eexists. eexists. split; [reflexivity|]. cbn.
    rewrite Hwg2, Hsema2. repeat split; try assumption.
    intros Hw. rewrite Hw2, Hw in Hb. discriminate Hb.
Qed.

Lemma unit_completes (b : backoffOpt EB) ch limited j f fs s :
  waiting b ch limited j (f :: fs) s ->
  exists s', run s (unit_schedule limited j) = Some s' /\
             waiting b ch limited (S j) fs s'.
Proof.
  destruct s as [g us pk cs].
  intros [Hal Hun Hwg Hsem (o & Ho & Hsel) Herr Hroom Hlive].
  cbn [grp units panicked cancels] in *. subst pk.
  set (base := repeat Finished j ++ AtAcquire f :: map AtAcquire fs).
  assert (Hj : (j < length base)%nat).
  { unfold base. rewrite length_app, repeat_length. cbn. lia. }
  assert (Hus : us = <[j := AtAcquire f]> base).
  { unfold base. now rewrite insert_repeat_middle. }
  assert (Hfin : <[j := Finished]> base
                 = repeat Finished (S j) ++ map AtAcquire fs).
  { unfold base. now rewrite insert_repeat_middle, repeat_middle. }
  rewrite Hus. clear Hus Hun.
  assert (Hsel' : exists o', mark_wrapped (Some o) = Some o' /\
                             select_backoff o' = Some b).
  { eexists. split; [reflexivity|exact Hsel]. }
  destruct (sema g) as [w|] eqn:Hs.
  - destruct Hsem as (-> & Hcur & Hsize).
    unfold unit_schedule. rewrite run_cons.
    rewrite exec_alive_step, (acquire_at _ _ _ _ _ w Hj Hs) by lia.
    destruct (runs_to_exit b ch j f base
                (set_sema (Some {| size := size w; cur := cur w + 1 |}) g)
                cs o Hj Ho Hsel Herr Hroom)
      as (g' & cs' & -> & Hwg' & Hsema' & Herr' & Hrm' & Hw' & Hctx').
    eexists. split; [reflexivity|].
    constructor; cbn [grp units panicked cancels]; try assumption.
    + reflexivity.
    + rewrite Hwg'. cbn [wg set_sema]. rewrite Hwg. cbn [length]. lia.
    + rewrite Hsema'. cbn. repeat split; lia.
    + now rewrite Hrm'.
    + intros _. destruct (Hlive eq_refl) as [Hw Hctx].
      cbn [waitAll ctx set_sema] in Hw', Hctx'.
      split; [now rewrite Hw'|now rewrite Hctx'].
  - subst limited. unfold unit_schedule, to_completion. rewrite run_cons.
    rewrite exec_alive_step, (step_at _ _ _ _ _ Hj), Hs.
    destruct (runs_to_exit b ch j f base g cs o Hj Ho Hsel Herr Hroom)
      as (g' & cs' & -> & Hwg' & Hsema' & Herr' & Hrm' & Hw' & Hctx').
    eexists. split; [reflexivity|].
    constructor; cbn [grp units panicked cancels]; try assumption.
    + reflexivity.
    + rewrite Hwg', Hwg. cbn [length]. lia.
    + rewrite Hsema', Hs. reflexivity.
    + now rewrite Hrm'.
    + discriminate.
Qed.

Lemma all_complete (b : backoffOpt EB) ch limited : forall fs j s,
  waiting b ch limited j fs s ->
  exists s', run s (one_by_one limited j (length fs)) = Some s' /\
             waiting b ch limited (j + length fs) [] s'.
Proof.
  induction fs as [|f fs IH]; intros j s Hw.
  - exists s. split; [reflexivity|]. now rewrite Nat.add_0_r.
  - destruct (unit_completes _ _ _ _ _ _ _ Hw) as (s1 & Hrun1 & Hw1).
    destruct (IH _ _ Hw1) as (s2 & Hrun2 & Hw2).
    exists s2. split.
    + unfold one_by_one in *. cbn [length seq flat_map].
      now rewrite run_app, Hrun1.
    + cbn [length]. now rewrite Nat.add_succ_r.
Qed.

Lemma all_submitted (b : backoffOpt EB) ch limited j : forall fs acc s,
  waiting b ch limited j acc s ->
  exists s', run s (map LGo fs) = Some s' /\
             waiting b ch limited j (acc ++ fs) s'.
Proof.
  induction fs as [|f fs IH]; intros acc s Hw.
  - exists s. split; [reflexivity|]. now rewrite app_nil_r.
  - assert (Hgo : waiting b ch limited j (acc ++ [f]) (Go f s)).
    { destruct Hw as [Hal Hun Hwg Hsem Hopt Herr Hroom Hlive].
      constructor;
        cbn [Go grp units panicked set_wg wg sema retryMode err waitAll ctx];
        try assumption.
      - rewrite Hun, map_app, app_assoc. reflexivity.
      - rewrite Hwg, length_app. cbn [length]. lia. }
    destruct (IH _ _ Hgo) as (s' & Hrun & Hw').
    exists s'. split.
    + cbn [map run]. unfold exec. rewrite (wt_alive _ _ _ _ _ _ Hw).
      exact Hrun.
    + now rewrite <- app_assoc in Hw'.
Qed.

Lemma run_ctx_kept ls : forall s s' e,
  run s ls = Some s' -> ctx (grp s) = Some e -> ctx (grp s') = Some e.
Proof.
  induction ls as [|l ls IH]; intros s s' e Hrun He; cbn in Hrun.
  - now inversion Hrun; subst.
  - destruct (exec s l) as [s1|] eqn:Hx; [|discriminate].
    exact (IH s1 s' e Hrun (exec_ctx_sticky _ _ _ _ Hx He)).
Qed.

(** A run that ends with the context not done has made all its [Acquire]
    calls with the context not done. *)
Lemma live_of_final ls : forall s s',
  run s ls = Some s' -> ctx (grp s') = None -> live_acquires s ls.
Proof.
  induction ls as [|l ls IH]; intros s s' Hrun Hend; [exact I|].
  cbn [live_acquires]. pose proof Hrun as Hrun0. cbn [run] in Hrun.
  destruct (exec s l) as [s1|] eqn:Hx; [|discriminate]. split.
  - destruct l; try exact I.
    destruct (ctx (grp s)) as [e|] eqn:He; [|reflexivity].
    rewrite (run_ctx_kept _ _ _ _ Hrun0 He) in Hend. discriminate.
  - exact (IH _ _ Hrun Hend).
Qed.

(** A schedule without [Acquire] has nothing to check. *)
Lemma live_without_acquire ls : forall s,
  Forall (fun l => forall i, l <> LAcquire i) ls -> live_acquires s ls.
Proof.
  induction ls as [|l ls IH]; intros s Hall; [exact I|].
  inversion Hall as [|l0 ls0 Hl Hls]; subst.
  cbn [live_acquires]. split.
  - destruct l; try exact I. now destruct (Hl i).
  - destruct (exec s l); [apply IH; exact Hls|exact I].
Qed.

(** X17: for every list of tasks, in a group whose retry options have one
    of the three modes, whose error capacity is at most 65536, and which
    either has no semaphore or runs to completion under a parent context
    that is not done, the schedule that submits all the tasks and then
    lets each goroutine in turn acquire its permit (when there is a
    semaphore), run its task and exit is a run of the program in which
    every [Acquire] is called with the context not done; after it every
    goroutine has finished, the counter is zero, and [Wait] returns the
    channel the constructor made. *)
Theorem group_drains parent maxConcurrency w (o : RetryOption)
  (b : backoffOpt EB) maxErrs (fs : list Task) :
  select_backoff o = Some b ->
  maxErrs <= small_capacity ->
  (0 < maxConcurrency -> w = true /\ parent = None) ->
  exists s s',
    run (start (NewGroupWithContext parent maxConcurrency w (Some o) maxErrs))
        (map LGo fs ++ one_by_one (0 <? maxConcurrency) 0 (length fs))
      = Some s /\
    live_acquires
      (start (NewGroupWithContext parent maxConcurrency w (Some o) maxErrs))
      (map LGo fs ++ one_by_one (0 <? maxConcurrency) 0 (length fs)) /\
    units s = repeat Finished (length fs) /\
    wg (grp s) = 0 /\
    Wait s =
      Some (s', err (NewGroupWithContext parent maxConcurrency w (Some o)
                       maxErrs)).
Proof.
  intros Hsel _ Hlim.
  set (g0 := NewGroupWithContext parent maxConcurrency w (Some o) maxErrs).
  assert (Hw0 : waiting b (err g0) (0 <? maxConcurrency) 0 [] (start g0)).
  { constructor; cbn; try reflexivity.
    - destruct (0 <? maxConcurrency) eqn:Hlt; [|reflexivity].
      apply Z.ltb_lt in Hlt. auto.
    - eauto.
    - intros c. destruct (0 <? maxErrs) eqn:Hlt; [|discriminate].
      apply Z.ltb_lt in Hlt. intros Hc. inversion Hc. unfold len. cbn. lia.
    - intros Hlt. apply Z.ltb_lt in Hlt.
      destruct (Hlim Hlt) as [-> ->]. split; reflexivity. }
  destruct (all_submitted _ _ _ _ fs _ _ Hw0) as (s1 & Hrun1 & Hw1).
  cbn [app] in Hw1.
  destruct (all_complete _ _ _ _ _ _ Hw1) as (s2 & Hrun2 & Hw2).
  destruct Hw2 as [Hal Hun Hwg Hsem Hopt Herr Hroom Hlive].
  cbn [map length] in Hun, Hwg. rewrite app_nil_r, Nat.add_0_l in Hun.
  assert (Hrun : run (start g0)
                   (map LGo fs
                    ++ one_by_one (0 <? maxConcurrency) 0 (length fs))
                 = Some s2).
  { now rewrite run_app, Hrun1. }
  exists s2. eexists. split; [exact Hrun|].
  split.
  - destruct (0 <? maxConcurrency) eqn:Hlt.
    + exact (live_of_final _ _ _ Hrun (proj2 (Hlive eq_refl))).
    + apply live_without_acquire. apply Forall_app. split.
      * apply Forall_map, Forall_forall. intros f _ i. discriminate.
      * unfold one_by_one. apply Forall_flat_map, Forall_forall.
        intros j _. unfold unit_schedule, to_completion.
        repeat constructor; discriminate.
  - split; [exact Hun|]. split; [exact Hwg|].
    unfold Wait. rewrite Hal, Hwg, Herr. reflexivity.
Qed.

End Drain.

(** * The claims on sample inputs *)

#[local] Existing Instance sample_curve.

(** Section 8, last scenario: [maxRetries = 2], a fixed interval of 10ms,
    a task that fails twice and then succeeds: the wrapper reports success
    after three calls and two delays of 10ms. *)
Example retry_third_time_lucky :
  observed <$> Retry 3 third_time_lucky (NewConstantBackoff 2 10000000) =
    Some (None, 3%nat, [10000000; 10000000]).
Proof. reflexivity. Qed.

(** With the sample curve and [MaxRetries = 3] a task that always fails is
    called four times, after delays of 0.5s, 1s and 2s, and the failure of
    the fourth call is returned. *)
Example retry_exponential_budget :
  observed <$> Retry 4 fails_differently
                 (OfExponential (EB:=Z) (NewExponentialBackoff 3)) =
    Some (Some (TaskError 3), 4%nat, [500000000; 1000000000; 2000000000]).
Proof. reflexivity. Qed.

(** C6, as worded, fails for a fixed-delay policy whose interval is -1ns,
    the value of [Stop]: with [MaxRetries = 3] the first [NextBackOff]
    returns the interval, the wrapper takes it for the stop signal, and a
    task that always fails is called once, not four times. *)
Lemma C6_counterexample_stop_interval :
  (forall k, fails_differently k <> None) /\
  NextBackOff (NewConstantBackoff 3 (-1)) =
    (Stop, {| interval := -1;
              c_cc := {| maxRetries := 3; remainRetries := 2 |} |}) /\
  observed <$> Retry 4 fails_differently (NewConstantBackoff 3 (-1)) =
    Some (Some (TaskError 0), 1%nat, []) /\
  call_fun (Some (constant_retry 3 (-1))) fails_differently =
    Returned (Some (TaskError 0)) 1 /\
  ~ retry_budget_as_worded 3 fails_differently (NewConstantBackoff 3 (-1)).
Proof.
  split; [discriminate|].
  split; [reflexivity|]. split; [reflexivity|]. split; [reflexivity|].
  intros (a & Ha & Hcalls & _).
  vm_compute in Ha. inversion Ha; subst. discriminate Hcalls.
Qed.

Lemma C6_retry_budget_witness :
  0 <= MaxRetries (constant_retry 3 30000000) /\
  select_backoff (constant_retry 3 30000000) =
    Some (OfConstant (NewConstantBackoff 3 30000000)) /\
  (forall k, fails_differently k <> None) /\
  call_fun (Some (constant_retry 3 30000000)) fails_differently =
    Returned (Some (TaskError 3)) 4 /\
  retry_budget_as_worded 3 fails_differently
    (OfConstant (NewConstantBackoff 3 30000000)).
Proof.
  split; [discriminate|]. split; [reflexivity|]. split; [discriminate|].
  apply (C6_retry_budget (constant_retry 3 30000000)
           (OfConstant (NewConstantBackoff 3 30000000)) fails_differently).
  - discriminate.
  - reflexivity.
  - discriminate.
  - discriminate.
Defined.

(** C7, as worded, fails on a negative counter: the policy made by
    [NewZeroBackoff(-1)] has a counter that is not zero, yet [NextBackOff]
    returns the stop signal and leaves the counter as it is. *)
Lemma C7_counterexample_negative_counter :
  remainRetries (z_cc (NewZeroBackoff (-1))) = -1 /\
  NextBackOff (NewZeroBackoff (-1)) = (Stop, NewZeroBackoff (-1)) /\
  ~ budget_rule_as_worded (fun z => remainRetries (z_cc z))
      (NewZeroBackoff (-1)).
Proof.
  split; [reflexivity|]. split; [reflexivity|].
  unfold budget_rule_as_worded. cbn. discriminate.
Qed.

Lemma C7_attempt_budget_rule_witness :
  0 < remainRetries (counter (OfConstant (EB:=Z) (NewConstantBackoff 2 30000000))) /\
  NextBackOff (OfConstant (EB:=Z) (NewConstantBackoff 2 30000000)) =
    (30000000,
     OfConstant {| interval := 30000000;
                   c_cc := {| maxRetries := 2; remainRetries := 1 |} |}) /\
  remainRetries (counter (OfZero (EB:=Z) (NewZeroBackoff 0))) <= 0 /\
  NextBackOff (OfZero (EB:=Z) (NewZeroBackoff 0)) =
    (Stop, OfZero (NewZeroBackoff 0)) /\
  call_fun (Some no_retry) fails_differently = Returned (Some (TaskError 0)) 1.
Proof.
  destruct (C7_attempt_budget_rule
              (OfConstant (EB:=Z) (NewConstantBackoff 2 30000000)))
    as (_ & Hpos & _).
  destruct (C7_attempt_budget_rule (OfZero (EB:=Z) (NewZeroBackoff 0)))
    as (Hzero & _ & Hwrap).
  split; [reflexivity|].
  split; [exact (proj2 (Hpos eq_refl))|].
  split; [discriminate|].
  split; [apply Hzero; discriminate|].
  exact (proj2 (Hwrap no_retry fails_differently eq_refl eq_refl)).
Defined.

Lemma C10_negative_budget_witness :
  MaxRetries (exponential_retry (-2)) < 0 /\
  select_backoff (exponential_retry (-2)) =
    Some (OfExponential (EB:=Z) (NewExponentialBackoff (-2))) /\
  nexts 3 (OfExponential (EB:=Z) (NewExponentialBackoff (-2))) =
    [Stop; Stop; Stop] /\
  call_fun (Some (exponential_retry (-2))) fails_differently =
    Returned (Some (TaskError 0)) 1 /\
  call_fun (Some (with_MaxRetries 0 (exponential_retry (-2)))) fails_differently =
    call_fun (Some (exponential_retry (-2))) fails_differently.
Proof.
  destruct (C10_negative_budget_is_zero_budget (exponential_retry (-2))
              (OfExponential (EB:=Z) (NewExponentialBackoff (-2)))
              fails_differently 3 0 eq_refl eq_refl)
    as (_ & Hn & _ & _ & Hcall & b0 & _ & _ & _ & Hsame).
  split; [reflexivity|]. split; [reflexivity|].
  split; [exact Hn|]. split; [exact Hcall|exact Hsame].
Defined.


Lemma C8_Wait_result_witness :
  exists s s' r,
    run (start five_failures_group) five_failures = Some s /\
    Wait s = Some (s', r) /\
    r = err (grp s) /\
    (r = None <-> 3 <= 0) /\
    (0 < 3 -> exists c, r = Some c /\ errs_cap c = 3).
Proof.
  eexists. eexists. eexists.
  split; [vm_compute; reflexivity|].
  split; [vm_compute; reflexivity|].
  eapply (C8_Wait_result None 0 true (Some no_retry) 3 five_failures).
  - vm_compute. reflexivity.
  - vm_compute. reflexivity.
Defined.

(** * The further properties on sample inputs *)

Lemma call_fun_bounds_witness :
  select_backoff (constant_retry 2 10000000) =
    Some (OfConstant (EB:=Z) (NewConstantBackoff 2 10000000)) /\
  exists r n,
    call_fun (Some (constant_retry 2 10000000)) third_time_lucky =
      Returned r n /\
    (1 <= n <= S (Z.to_nat (MaxRetries (constant_retry 2%Z 10000000%Z))))%nat /\
    r = third_time_lucky (n - 1)%nat /\
    forall k, (k < n - 1)%nat -> third_time_lucky k <> None.
Proof.
  split; [reflexivity|].
  apply (call_fun_bounds (constant_retry 2 10000000)
           (OfConstant (NewConstantBackoff 2 10000000)) third_time_lucky).
  reflexivity.
Defined.

Lemma permits_bounded_witness :
  exists s,
    run (start starved_group)
        [LGo (always_fails 1); LGo succeeds; LAcquire 0; LStep 0] = Some s /\
    sema (grp s) =
      (if 0 <? 1 then Some {| size := 1; cur := holders (units s) |}
       else None) /\
    (0 < 1 -> 0 <= holders (units s) <= 1).
Proof.
  eexists. split; [vm_compute; reflexivity|].
  eapply (permits_bounded None 1 false (Some no_retry) 3
            [LGo (always_fails 1); LGo succeeds; LAcquire 0; LStep 0]).
  vm_compute. reflexivity.
Defined.

Lemma early_return_needs_cancellation_witness :
  exists s,
    run (start starved_group) starved = Some s /\
    units s !! 1%nat = Some ReturnedEarly /\
    0 < 1 /\ ctx (grp s) <> None.
Proof.
  eexists. split; [vm_compute; reflexivity|].
  split; [reflexivity|].
  eapply (early_return_needs_cancellation None 1 false (Some no_retry) 3
            starved _ 1%nat).
  - vm_compute. reflexivity.
  - reflexivity.
Defined.

Lemma err_channel_never_changes_witness :
  exists s,
    run (start five_failures_group) five_failures = Some s /\
    err (grp s) =
      if 0 <? 3 then Some {| errs := []; errs_cap := 3 |} else None.
Proof.
  eexists. split; [vm_compute; reflexivity|].
  eapply (err_channel_never_changes None 0 true (Some no_retry) 3
            five_failures).
  vm_compute. reflexivity.
Defined.

Lemma wg_counter_bounds_witness :
  exists s,
    run (start starved_group) starved = Some s /\
    wg (grp s) = pending (units s) /\
    0 <= wg (grp s) <= Z.of_nat (count_go starved) /\
    length (units s) = count_go starved.
Proof.
  eexists. split; [vm_compute; reflexivity|].
  eapply (wg_counter_bounds None 1 false (Some no_retry) 3 starved).
  vm_compute. reflexivity.
Defined.

Lemma errOnce_cancels_once_witness :
  exists s,
    run (start starved_group) starved = Some s /\
    cancels s = [FromGo 0] /\
    (from_go (cancels s) <= 1)%nat.
Proof.
  eexists. split; [vm_compute; reflexivity|].
  split; [reflexivity|].
  eapply (errOnce_cancels_once None 1 false (Some no_retry) 3 starved).
  vm_compute. reflexivity.
Defined.

Lemma ctx_error_is_kept_witness :
  exists s',
    run (start (NewGroupWithContext (Some DeadlineExceeded) 0 false
                  (Some no_retry) 3))
        (one_success ++ [LStep 0; LWait]) = Some s' /\
    cancels s' = [FromGo 0; FromWait] /\
    ctx (grp s') = Some DeadlineExceeded.
Proof.
  eexists. split; [vm_compute; reflexivity|].
  split; [reflexivity|].
  eapply (ctx_error_is_kept (one_success ++ [LStep 0; LWait])
            (start (NewGroupWithContext (Some DeadlineExceeded) 0 false
                      (Some no_retry) 3))).
  - vm_compute. reflexivity.
  - reflexivity.
Defined.

Lemma Wait_twice_witness :
  exists s' r,
    Wait (start five_failures_group) = Some (s', r) /\
    ctx (grp s') <> None /\
    exists s'', Wait s' = Some (s'', r) /\
                grp s'' = grp s' /\ units s'' = units s'.
Proof.
  eexists. eexists.
  split; [vm_compute; reflexivity|].
  apply (Wait_twice (start five_failures_group)).
  vm_compute. reflexivity.
Defined.

Lemma fail_fast_cancels_on_completion_witness :
  exists s,
    run (start one_success_group) one_success = Some s /\
    units s !! 0%nat = Some AtDefer /\
    errOnce (grp s) = true /\ ctx (grp s) <> None.
Proof.
  eexists. split; [vm_compute; reflexivity|].
  split; [reflexivity|].
  eapply (fail_fast_cancels_on_completion None 0 (Some no_retry) 1
            one_success _ 0%nat AtDefer).
  - vm_compute. reflexivity.
  - reflexivity.
  - reflexivity.
Defined.

Lemma no_panic_with_options_witness :
  select_backoff (exponential_retry 3) =
    Some (OfExponential (EB:=Z) (NewExponentialBackoff 3)) /\
  exists s,
    run (start (NewGroupWithContext None 0 true (Some (exponential_retry 3)) 3))
        five_failures = Some s /\
    panicked s = false /\
    Forall (fun p => p <> Panicked) (units s) /\
    exists o', retryMode (grp s) = Some o' /\
               Mode o' = Mode (exponential_retry 3) /\
               Interval o' = Interval (exponential_retry 3) /\
               MaxRetries o' = MaxRetries (exponential_retry 3).
Proof.
  split; [reflexivity|].
  eexists. split; [vm_compute; reflexivity|].
  eapply (no_panic_with_options None 0 true (exponential_retry 3)
            (OfExponential (NewExponentialBackoff 3)) 3 five_failures).
  - reflexivity.
  - vm_compute. reflexivity.
Defined.

Lemma Wait_returns_iff_all_finished_witness :
  select_backoff no_retry = Some (OfZero (EB:=Z) (NewZeroBackoff 0)) /\
  exists s,
    run (start starved_group) starved = Some s /\
    units s = [Finished; ReturnedEarly] /\
    Wait s = None /\
    (Wait s <> None <-> Forall (fun p => p = Finished) (units s)) /\
    (Wait s <> None <-> wg (grp s) = 0).
Proof.
  split; [reflexivity|].
  eexists. split; [vm_compute; reflexivity|].
  split; [reflexivity|]. split; [reflexivity|].
  eapply (Wait_returns_iff_all_finished None 1 false no_retry
            (OfZero (NewZeroBackoff 0)) 3 starved).
  - reflexivity.
  - vm_compute. reflexivity.
Defined.

Lemma group_drains_witness :
  select_backoff (constant_retry 2 10000000) =
    Some (OfConstant (EB:=Z) (NewConstantBackoff 2 10000000)) /\
  3 <= small_capacity /\
  (0 < 2 -> true = true /\ @None error = None) /\
  exists s s',
    run (start (NewGroupWithContext None 2 true
                  (Some (constant_retry 2 10000000)) 3))
        (map LGo [always_fails 1; succeeds; third_time_lucky]
         ++ one_by_one (0 <? 2) 0
              (length [always_fails 1; succeeds; third_time_lucky]))
      = Some s /\
    live_acquires
      (start (NewGroupWithContext None 2 true
                (Some (constant_retry 2 10000000)) 3))
      (map LGo [always_fails 1; succeeds; third_time_lucky]
       ++ one_by_one (0 <? 2) 0
            (length [always_fails 1; succeeds; third_time_lucky])) /\
    units s =
      repeat Finished (length [always_fails 1; succeeds; third_time_lucky]) /\
    wg (grp s) = 0 /\
    Wait s =
      Some (s', err (NewGroupWithContext None 2 true
                       (Some (constant_retry 2 10000000)) 3)).
Proof.
  split; [reflexivity|].
  split; [discriminate|].
  split; [intros _; split; reflexivity|].
  apply (group_drains None 2 true (constant_retry 2 10000000)
           (OfConstant (NewConstantBackoff 2 10000000)) 3
           [always_fails 1; succeeds; third_time_lucky]).
  - reflexivity.
  - discriminate.
  - intros _. split; reflexivity.
Defined.

(** * A curve with jitter *)

#[local] Existing Instance jittered_curve.

